(** * The todo data-access layer of [scripts/todo-list.js]

    A shallow embedding of class [ToDoListData] (the CRUD operations over the
    per-user flag store of the host) together with the part of the host that
    the class calls into: the user collection [game.users], the flag store of
    a user document and the identifier generator. *)

From Stdlib Require Import Ascii String.
From stdpp Require Import gmap strings list fin_maps pretty.

Open Scope string_scope.
Open Scope list_scope.

(** ** JavaScript data *)

(** The value of a field of a todo record. *)
Inductive value :=
  | VUndefined
  | VNull
  | VBool (b : bool)
  | VString (s : string).

(** A [ToDo] of the typedef at the top of the file is a plain object; its
    fields are [id], [label], [isDone] and [userId], any of which a partial
    record may lack. *)
Abbreviation ToDo := (gmap string value).

(** What can sit under a key of an object handed to, or kept by, the flag
    store: [null] or a record. *)
Inductive jsval :=
  | JNull
  | JObj (o : ToDo).

(** The todo collection of one user, and the aggregation over users. *)
Abbreviation ToDos := (gmap string jsval).

(** An object literal whose keys are written in source order. *)
Abbreviation payload := (list (string * jsval)).

(** [{...a, ...b}]: the own properties of [a], then those of [b] on top. *)
Definition spread {V} (a b : gmap string V) : gmap string V := b ∪ a.

(** Spreading [undefined] copies nothing. *)
Definition spread_opt {V} (a : gmap string V) (b : option (gmap string V)) :
    gmap string V :=
  match b with
  | Some o => spread a o
  | None => a
  end.

(** The names every plain object inherits from [Object.prototype]. *)
Definition object_prototype : list string :=
  [ "constructor"; "hasOwnProperty"; "isPrototypeOf"; "propertyIsEnumerable";
    "toLocaleString"; "toString"; "valueOf"; "__proto__";
    "__defineGetter__"; "__defineSetter__";
    "__lookupGetter__"; "__lookupSetter__" ].

(** The outcome of [obj[key]] on a plain object. *)
Inductive indexed :=
  | Own (v : jsval)
  | Inherited
  | Absent.

Definition js_index (obj : ToDos) (key : string) : indexed :=
  match obj !! key with
  | Some v => Own v
  | None => if bool_decide (key ∈ object_prototype) then Inherited else Absent
  end.

(** [ToPropertyKey] on a field that was read from a record. *)
Definition to_property_key (v : option value) : string :=
  match v with
  | Some (VString s) => s
  | Some (VBool true) => "true"
  | Some (VBool false) => "false"
  | Some VNull => "null"
  | Some VUndefined | None => "undefined"
  end.

(** ** The host *)

(** A user document: its id and the value of its flag
    [flags['todo-list']['todos']], [None] when the flag was never set. *)
Record User := mkUser {
  user_id : string;
  user_todos : option ToDos
}.

(** The world the class runs in. [game_users] is the user collection in
    enumeration order; [entropy] and [draws] stand for the identifier
    generator (the [n]-th token it hands out, and how many it has handed
    out); [flag_writes] records every [setFlag] call that was issued, oldest
    first, with the id of the user document it was issued on. *)
Record World := mkWorld {
  game_users : list User;
  entropy : nat → string;
  draws : nat;
  flag_writes : list (string * payload)
}.

(** ** Computations that may throw *)

Inductive exn := TypeError.

Inductive result (A : Type) :=
  | Normal (a : A)
  | Thrown (e : exn).
Arguments Normal {A} a.
Arguments Thrown {A} e.

Definition Op (A : Type) : Type := World → result A * World.

Definition op_ret {A} (a : A) : Op A := λ w, (Normal a, w).

Definition op_bind {A B} (c : Op A) (k : A → Op B) : Op B :=
  λ w, match c w with
       | (Normal a, w') => k a w'
       | (Thrown e, w') => (Thrown e, w')
       end.

Definition throw {A} (e : exn) : Op A := λ w, (Thrown e, w).

Notation "'let*' x := c 'in' k" := (op_bind c (λ x, k))
  (at level 10, x name, c at level 100, k at level 200,
   format "'[v' 'let*'  x  :=  c  'in' '/' k ']'").

(** What a method of the class hands back: [undefined] when the optional
    chain short-circuits, else the promise of the flag write. *)
Inductive returned :=
  | RetUndefined
  | RetPromise.

(** ** The host, continued: users, flags, identifiers *)

(** The document stored under a user id: the first of that id in the
    collection. *)
Fixpoint find_user (us : list User) (uid : string) : option User :=
  match us with
  | [] => None
  | u :: rest => if decide (user_id u = uid) then Some u else find_user rest uid
  end.

(** Replace the flag of the document stored under [uid]. *)
Fixpoint put_todos (us : list User) (uid : string) (c : option ToDos) :
    list User :=
  match us with
  | [] => []
  | u :: rest =>
      if decide (user_id u = uid) then mkUser (user_id u) c :: rest
      else u :: put_todos rest uid c
  end.

(** [game.users.get(key)]: the collection is keyed by the users' string
    ids, so a key that is not a string finds nothing. The document is handed
    back as its id. *)
Definition users_get (key : value) : Op (option string) :=
  λ w, match key with
       | VString uid =>
           (Normal (user_id <$> find_user (game_users w) uid), w)
       | _ => (Normal None, w)
       end.

(** The flag kept for the document stored under [uid]. *)
Definition stored_todos (w : World) (uid : string) : option ToDos :=
  find_user (game_users w) uid ≫= user_todos.

(** [user.getFlag(ToDoList.ID, ToDoList.FLAGS.TODOS)]. *)
Definition getFlag (uid : string) : Op (option ToDos) :=
  λ w, (Normal (stored_todos w uid), w).

(** The deletion sentinel: a key [-=k] of a write names the key [k] to
    remove. *)
Definition deletion_key (k : string) : option string :=
  match k with
  | String "-"%char (String "="%char rest) => Some rest
  | _ => None
  end.

(** Modelled from the spec: the merge a flag write performs, which belongs to
    the host and is not part of this repository. Writing a key sets that key
    alone; a key that carries the deletion sentinel removes the key it names
    instead of being written. *)
Definition merge_entry (c : ToDos) (e : string * jsval) : ToDos :=
  match deletion_key e.1 with
  | Some k => delete k c
  | None => <[e.1 := e.2]> c
  end.

(** Modelled from the spec: the entries of a write are merged one by one
    into the stored collection, an unset flag counting as empty. *)
Definition merge_on_write (stored : option ToDos) (p : payload) : ToDos :=
  fold_left merge_entry p (default ∅ stored).

(** [user.setFlag(ToDoList.ID, ToDoList.FLAGS.TODOS, p)]. The world that
    results is the one in which the promise has resolved; a store that
    rejects the write is not modelled. *)
Definition setFlag (uid : string) (p : payload) : Op returned :=
  λ w,
    let merged := merge_on_write (stored_todos w uid) p in
    (Normal RetPromise,
     mkWorld (put_todos (game_users w) uid (Some merged))
             (entropy w) (draws w) (flag_writes w ++ [(uid, p)])).

(** Modelled from the spec: [foundry.utils.randomID(16)], an opaque token
    taken from the generator; the requested length plays no part here. *)
Definition randomID (len : nat) : Op string :=
  λ w, (Normal (entropy w (draws w)),
        mkWorld (game_users w) (entropy w) (S (draws w)) (flag_writes w)).

(** [game.users.reduce(f, init)]: the documents are visited in enumeration
    order. *)
Fixpoint reduce_users {A} (f : A → User → Op A) (us : list User) (acc : A) :
    Op A :=
  match us with
  | [] => op_ret acc
  | u :: rest => let* acc' := f acc u in reduce_users f rest acc'
  end.

Definition users_reduce {A} (f : A → User → Op A) (init : A) : Op A :=
  λ w, reduce_users f (game_users w) init w.

(** [x.userId]: reading a property off [undefined] or [null] throws; the
    members inherited from [Object.prototype] have no such property. *)
Definition get_userId (x : indexed) : Op value :=
  match x with
  | Own (JObj o) => op_ret (default VUndefined (o !! "userId"))
  | Inherited => op_ret VUndefined
  | Own JNull | Absent => throw TypeError
  end.

(** ** Class [ToDoListData] *)

Module ToDoListData.

(** [static getToDosForUser(userId)] *)
Definition getToDosForUser (userId : string) : Op (option ToDos) :=
  let* user := users_get (VString userId) in
  match user with
  | Some u => getFlag u
  | None => op_ret None
  end.

(** [static get allToDos()] *)
Definition allToDos : Op ToDos :=
  users_reduce
    (λ accumulator user,
       let* userTodos := getToDosForUser (user_id user) in
       op_ret (spread_opt accumulator userTodos))
    ∅.

(** The record [createToDo] builds:
    [{ isDone: false, ...toDoData, id: <token>, userId }]. *)
Definition newToDo (toDoData : ToDo) (token userId : string) : ToDo :=
  <["userId" := VString userId]>
    (<["id" := VString token]>
       (spread {["isDone" := VBool false]} toDoData)).

(** [static createToDo(userId, toDoData)] *)
Definition createToDo (userId : string) (toDoData : ToDo) : Op returned :=
  let* token := randomID 16 in
  let newToDo := newToDo toDoData token userId in
  let newToDos := [(to_property_key (newToDo !! "id"), JObj newToDo)] in
  let* user := users_get (VString userId) in
  match user with
  | Some u => setFlag u newToDos
  | None => op_ret RetUndefined
  end.

(** [static updateToDo(toDoId, updateData)] *)
Definition updateToDo (toDoId : string) (updateData : jsval) : Op returned :=
  let* all := allToDos in
  let relevantToDo := js_index all toDoId in
  let update := [(toDoId, updateData)] in
  let* owner := get_userId relevantToDo in
  let* user := users_get owner in
  match user with
  | Some u => setFlag u update
  | None => op_ret RetUndefined
  end.

(** [static updateUserToDos(userId, updateData)] *)
Definition updateUserToDos (userId : string) (updateData : payload) :
    Op returned :=
  let* user := users_get (VString userId) in
  match user with
  | Some u => setFlag u updateData
  | None => op_ret RetUndefined
  end.

(** [static deleteToDo(toDoId)] *)
Definition deleteToDo (toDoId : string) : Op returned :=
  let* all := allToDos in
  let relevantToDo := js_index all toDoId in
  let keyDeletion := [("-=" +:+ toDoId, JNull)] in
  let* owner := get_userId relevantToDo in
  let* user := users_get owner in
  match user with
  | Some u => setFlag u keyDeletion
  | None => op_ret RetUndefined
  end.

End ToDoListData.

Import ToDoListData.

(** ** Vocabulary of the statements *)

(** The entry a key has in the last collection, in enumeration order, that
    holds it. *)
Fixpoint last_entry (cs : list (option ToDos)) (k : string) : option jsval :=
  match cs with
  | [] => None
  | c :: rest =>
      match last_entry rest k with
      | Some v => Some v
      | None => c ≫= (.!! k)
      end
  end.

(** The collections the getter visits: for each document of the user
    collection, what [getToDosForUser] finds under its id. *)
Definition visited (w : World) : list (option ToDos) :=
  (λ u, stored_todos w (user_id u)) <$> game_users w.

(** The keys of a stored flag can be told apart from deletion requests. *)
Definition usable_keys (oc : option ToDos) : Prop :=
  match oc with
  | Some c => map_Forall (λ k _, deletion_key k = None) c
  | None => True
  end.

(** No stored key carries the deletion sentinel. The flag store keeps this
    by itself: a write under such a key removes instead of storing. *)
Definition sentinel_free (w : World) : Prop :=
  Forall (λ usr, usable_keys (user_todos usr)) (game_users w).

(** Only the collection kept under [u] may hold the key [id]. *)
Definition held_only_by (w : World) (id u : string) : Prop :=
  Forall (λ usr, user_id usr = u ∨
                 stored_todos w (user_id usr) ≫= (.!! id) = None)
    (game_users w).

(** Every record is kept under the key that its own [id] field spells. *)
Definition keyed_by_id (w : World) : Prop :=
  Forall (λ usr,
            match user_todos usr with
            | Some c =>
                map_Forall (λ k x, ∀ o, x = JObj o →
                                        o !! "id" = Some (VString k)) c
            | None => True
            end)
    (game_users w).

(** The world right after a token was drawn. *)
Definition drawn (w : World) : World :=
  mkWorld (game_users w) (entropy w) (S (draws w)) (flag_writes w).

(** The user a record names as its owner, when that user is known. *)
Definition owner_of (w : World) (r : ToDo) : option string :=
  match r !! "userId" with
  | Some (VString u) => user_id <$> find_user (game_users w) u
  | _ => None
  end.

(** [createToDo] called once for each element of a list, in order. *)
Fixpoint createToDos (userId : string) (datas : list ToDo) :
    Op (list returned) :=
  match datas with
  | [] => op_ret []
  | toDoData :: rest =>
      let* r := createToDo userId toDoData in
      let* rs := createToDos userId rest in
      op_ret (r :: rs)
  end.

#[global] Instance value_eq_dec : EqDecision value.
Proof. solve_decision. Defined.

#[global] Instance jsval_eq_dec : EqDecision jsval.
Proof. solve_decision. Defined.

#[global] Instance usable_keys_dec oc : Decision (usable_keys oc).
Proof. destruct oc; simpl; apply _. Defined.

#[global] Instance sentinel_free_dec w : Decision (sentinel_free w).
Proof. unfold sentinel_free. apply _. Defined.

#[global] Instance held_only_by_dec w id u : Decision (held_only_by w id u).
Proof. unfold held_only_by. apply _. Defined.

(** ** Sample worlds *)

Definition sample_entropy (n : nat) : string := "tok" +:+ pretty n.

Definition world_of (us : list User) : World := mkWorld us sample_entropy 0 [].

Definition buy_milk : ToDo := {[ "label" := VString "buy milk" ]}.

Definition w_u1 : World := world_of [mkUser "u1" None; mkUser "u2" None].

Definition forged : ToDo :=
  {[ "label" := VString "x"; "isDone" := VBool true;
     "id" := VString "forged"; "userId" := VString "mallory" ]}.

Definition todo_a : ToDo :=
  {[ "id" := VString "a"; "userId" := VString "u1";
     "label" := VString "buy milk"; "isDone" := VBool true ]}.

Definition todo_b : ToDo :=
  {[ "id" := VString "b"; "userId" := VString "u1";
     "label" := VString "walk dog"; "isDone" := VBool false ]}.

Definition todo_c : ToDo :=
  {[ "id" := VString "c"; "userId" := VString "u2";
     "label" := VString "pay rent"; "isDone" := VBool false ]}.

(** Two users with todos of their own, a third without any. *)
Definition w_two : World :=
  world_of [ mkUser "u1" (Some {[ "a" := JObj todo_a; "b" := JObj todo_b ]});
             mkUser "u2" (Some {[ "c" := JObj todo_c ]});
             mkUser "u3" None ].

(** A record kept in the collection of [u1] that names [u2] as its user,
    and one that names a user nobody knows. *)
Definition w_misfiled : World :=
  world_of
    [ mkUser "u1"
        (Some {[ "m" := JObj {[ "label" := VString "x";
                                "userId" := VString "u2" ]};
                 "g" := JObj {[ "userId" := VString "gone" ]} ]});
      mkUser "u2" None ].

(** ** Class [ToDoList], the form and the button *)

(** What [console.log] is handed: a string, or the object
    [{formData, expandedData}] of the form's save. *)
Inductive logged :=
  | LText (s : string)
  | LSaving (formData : gmap string value) (expandedData : payload).

(** A module of [game.modules]; its [api], when it has one, answers
    [getPackageDebugValue]. *)
Record Module := mkModule {
  api : option (string → value)
}.

(** The client the form runs in: the world of the data layer, the modules
    that are installed, the lines printed on the console (oldest first) and
    the [render(force, {userId})] calls made on the form (oldest first; a
    call without arguments is recorded as [(false, None)]). *)
Record Client := mkClient {
  host : World;
  game_modules : gmap string Module;
  console : list (list logged);
  rendered : list (bool * option string)
}.

(** JavaScript truthiness of a value that may be [undefined]. *)
Definition truthy (v : option value) : bool :=
  match v with
  | Some (VBool b) => b
  | Some (VString s) => negb (bool_decide (s = ""))
  | Some VNull | Some VUndefined | None => false
  end.

Module ToDoList.

(** [static ID] *)
Definition ID : string := "todo-list".

(** [game.modules.get('_dev-mode')?.api?.getPackageDebugValue(this.ID)] *)
Definition debug_value (cl : Client) : option value :=
  m ← game_modules cl !! "_dev-mode";
  f ← api m;
  Some (f ID).

(** [static log(force, ...args)] *)
Definition log (force : bool) (args : list logged) (cl : Client) : Client :=
  let shouldLog := force || truthy (debug_value cl) in
  if shouldLog
  then mkClient (host cl) (game_modules cl)
         (console cl ++ [LText ID :: LText "|" :: args]) (rendered cl)
  else cl.

End ToDoList.

Module ToDoListConfig.

(** [render(force, options)] of the form application, which belongs to the
    host: the call is recorded. *)
Definition render (force : bool) (userId : option string) (cl : Client) :
    Client :=
  mkClient (host cl) (game_modules cl) (console cl)
    (rendered cl ++ [(force, userId)]).

(** [getData(options)]: the object [{todos: ...}], given as its one
    field. *)
Definition getData (options_userId : string) (cl : Client) :
    result (option ToDos) * Client :=
  let '(todos, h) := getToDosForUser options_userId (host cl) in
  (todos, mkClient h (game_modules cl) (console cl) (rendered cl)).

(** [async _updateObject(event, formData)], for the form whose
    [options.userId] is [options_userId]; [expandObject] is
    [foundry.utils.expandObject], which belongs to the host. The client that
    results is the one in which the returned promise has resolved. *)
Definition _updateObject
    (expandObject : gmap string value → payload) (options_userId : string)
    (formData : gmap string value) (cl : Client) : result unit * Client :=
  let expandedData := expandObject formData in
  let cl1 := ToDoList.log false [LText "saving";
                                 LSaving formData expandedData] cl in
  match updateUserToDos options_userId expandedData (host cl1) with
  | (Normal _, h) =>
      let cl2 := mkClient h (game_modules cl1) (console cl1) (rendered cl1) in
      (Normal tt, render false None cl2)
  | (Thrown e, h) =>
      (Thrown e, mkClient h (game_modules cl1) (console cl1) (rendered cl1))
  end.

End ToDoListConfig.

(** The click listener that the [renderPlayerList] hook installs on the
    button; [userId] is what the lookup
    [$(event.currentTarget).parents('[data-user-id]')?.data()?.userId]
    yields. *)
Definition on_button_click (userId : option string) (cl : Client) : Client :=
  let cl1 := ToDoListConfig.render true userId cl in
  ToDoList.log true [LText "Button Clicked!"] cl1.

(** A client without the developer-mode module, and one that has it
    switched on for this module. *)
Definition client_of (w : World) : Client := mkClient w ∅ [] [].

Definition dev_client_of (w : World) : Client :=
  mkClient w
    {[ "_dev-mode" :=
         mkModule (Some (λ package,
                           VBool (bool_decide (package = "todo-list")))) ]}
    [] [].

(** A stand-in for [expandObject] on the sample form data below: the form
    of one todo, its fields named [<id>.label] and [<id>.isDone]. *)
Definition sample_expand (formData : gmap string value) : payload :=
  [("a", JObj {[ "label" := default VUndefined (formData !! "a.label");
                 "isDone" := default VUndefined (formData !! "a.isDone") ]})].

Definition sample_form : gmap string value :=
  {[ "a.label" := VString "buy oat milk"; "a.isDone" := VBool false ]}.

(** ** Vocabulary of the further properties *)

(** The records of a collection all name [uid] in their [userId] field. *)
Definition names_holder (uid : string) (oc : option ToDos) : Prop :=
  match oc with
  | Some c =>
      map_Forall (λ _ x, match x with
                         | JObj o => o !! "userId" = Some (VString uid)
                         | JNull => True
                         end) c
  | None => True
  end.

(** Every record is kept in the collection of the user it names. *)
Definition owned_by_holder (w : World) : Prop :=
  Forall (λ usr, names_holder (user_id usr) (user_todos usr)) (game_users w).

(** What one call may do to the world: the users stay who they are, in the
    same order, and either nothing is written or one write is issued, on a
    known user's document, every other user's flag being left alone. *)
Definition one_write_at_most (w w' : World) : Prop :=
  user_id <$> game_users w' = user_id <$> game_users w ∧
  ((game_users w' = game_users w ∧ flag_writes w' = flag_writes w) ∨
   ∃ u p, is_Some (find_user (game_users w) u) ∧
          flag_writes w' = flag_writes w ++ [(u, p)] ∧
          ∀ v, v ≠ u → stored_todos w' v = stored_todos w v).

#[global] Instance names_holder_dec uid oc : Decision (names_holder uid oc).
Proof.
  destruct oc as [c|]; simpl; [|apply _].
  apply map_Forall_dec. intros _ [|o]; apply _.
Defined.

#[global] Instance owned_by_holder_dec w : Decision (owned_by_holder w).
Proof. unfold owned_by_holder. apply _. Defined.

#[global] Instance keyed_entry_dec k x :
  Decision (∀ o, x = JObj o → o !! "id" = Some (VString k)).
Proof.
  destruct x as [|o].
  - left. intros o [=].
  - destruct (decide (o !! "id" = Some (VString k))) as [Hid|Hid].
    + left. by intros ? [= <-].
    + right. intros Hall. by apply Hid, Hall.
Defined.

#[global] Instance keyed_by_id_dec w : Decision (keyed_by_id w).
Proof.
  unfold keyed_by_id. apply Forall_dec. intros usr.
  destruct (user_todos usr); apply _.
Defined.

(** Closing a side condition on a sample world by evaluation. *)
Ltac by_evaluation :=
  first [ reflexivity
        | vm_compute; reflexivity
        | apply (bool_decide_unpack _); vm_compute; exact I ].

(** The aggregation of [w_two]. *)
Definition agg_two : ToDos :=
  <[ "c" := JObj todo_c ]> {[ "a" := JObj todo_a; "b" := JObj todo_b ]}.

Definition u1_two : User :=
  mkUser "u1" (Some {[ "a" := JObj todo_a; "b" := JObj todo_b ]}).

Definition u2_two : User := mkUser "u2" (Some {[ "c" := JObj todo_c ]}).

(** Two users whose collections both hold the key ["k"]. *)
Definition w_collide : World :=
  world_of
    [ mkUser "u1" (Some {[ "k" := JObj {[ "id" := VString "k";
                                          "userId" := VString "u1" ]} ]});
      mkUser "u2" (Some {[ "k" := JObj {[ "id" := VString "k";
                                          "userId" := VString "u2" ]} ]}) ].

(** ** Reading *)

Section reads.
Implicit Types (w : World) (us : list User) (uid k : string) (acc : ToDos).

Lemma find_user_id us uid u : find_user us uid = Some u → user_id u = uid.
Proof.
  induction us as [|u' us IH]; simpl; [done|].
  case_decide; [by intros [= <-] | done].
Qed.

Lemma users_get_known w uid u :
  find_user (game_users w) uid = Some u →
  users_get (VString uid) w = (Normal (Some uid), w).
Proof.
  intros Hu. unfold users_get. rewrite Hu. simpl.
  by rewrite (find_user_id _ _ _ Hu).
Qed.

Lemma users_get_unknown w uid :
  find_user (game_users w) uid = None →
  users_get (VString uid) w = (Normal None, w).
Proof. intros Hu. unfold users_get. by rewrite Hu. Qed.

Lemma getToDosForUser_run uid w :
  getToDosForUser uid w = (Normal (stored_todos w uid), w).
Proof.
  unfold getToDosForUser, op_bind.
  destruct (find_user (game_users w) uid) as [u|] eqn:Hu.
  - by rewrite (users_get_known _ _ _ Hu).
  - rewrite (users_get_unknown _ _ Hu). unfold op_ret, stored_todos.
    by rewrite Hu.
Qed.

Lemma reduce_users_run w us acc :
  reduce_users
    (λ accumulator user,
       let* userTodos := getToDosForUser (user_id user) in
       op_ret (spread_opt accumulator userTodos)) us acc w
  = (Normal (fold_left (λ a u, spread_opt a (stored_todos w (user_id u)))
               us acc), w).
Proof.
  revert acc. induction us as [|u us IH]; intros acc; simpl; [done|].
  unfold op_bind at 1. unfold op_bind at 1.
  rewrite getToDosForUser_run. unfold op_ret at 1. apply IH.
Qed.

Lemma fold_spread_lookup (st : string → option ToDos) us acc k :
  fold_left (λ a u, spread_opt a (st (user_id u))) us acc !! k
  = match last_entry ((λ u, st (user_id u)) <$> us) k with
    | Some v => Some v
    | None => acc !! k
    end.
Proof.
  revert acc. induction us as [|u us IH]; intros acc; simpl; [done|].
  rewrite IH. destruct (last_entry _ k) as [v|]; [done|].
  destruct (st (user_id u)) as [c|]; simpl; [|done].
  unfold spread. rewrite lookup_union.
  destruct (c !! k), (acc !! k); done.
Qed.

Lemma allToDos_run w :
  allToDos w
  = (Normal (fold_left (λ a u, spread_opt a (stored_todos w (user_id u)))
               (game_users w) ∅), w).
Proof. unfold allToDos, users_reduce. apply reduce_users_run. Qed.

Lemma allToDos_lookup w agg k :
  (allToDos w).1 = Normal agg → agg !! k = last_entry (visited w) k.
Proof.
  rewrite allToDos_run. intros [= <-].
  rewrite (fold_spread_lookup (stored_todos w)). unfold visited.
  by destruct (last_entry _ k).
Qed.

Lemma last_entry_app cs1 cs2 k :
  last_entry (cs1 ++ cs2) k
  = match last_entry cs2 k with
    | Some v => Some v
    | None => last_entry cs1 k
    end.
Proof.
  induction cs1 as [|c cs1 IH]; simpl.
  - by destruct (last_entry cs2 k).
  - rewrite IH. by destruct (last_entry cs2 k).
Qed.

Lemma last_entry_None cs k :
  last_entry cs k = None ↔ ∀ c, Some c ∈ cs → c !! k = None.
Proof.
  induction cs as [|c0 cs IH]; simpl.
  - split; [|done]. intros _ c Hc. by apply elem_of_nil in Hc.
  - destruct (last_entry cs k) as [v|].
    + split; [done|]. intros Hall.
      assert (Some v = None) as Hv; [|done].
      apply IH. intros c Hc. apply Hall. by right.
    + split.
      * intros H0 c [<-|Hc]%elem_of_cons; [done|].
        by apply (proj1 IH).
      * intros Hall. destruct c0 as [c|]; simpl; [|done].
        apply Hall. by left.
Qed.

Lemma last_entry_held cs k v :
  last_entry cs k = Some v → ∃ c, Some c ∈ cs ∧ c !! k = Some v.
Proof.
  induction cs as [|c0 cs IH]; simpl; [done|].
  destruct (last_entry cs k) as [v'|].
  - intros [= <-]. destruct IH as (c & Hc & Hk); [done|].
    exists c. split; [by right | done].
  - destruct c0 as [c|]; simpl; [|done]. intros Hk.
    exists c. split; [by left | done].
Qed.

End reads.

(** ** Writing *)

Section writes.
Implicit Types (w : World) (us : list User) (uid u v k : string).
Implicit Types (c : ToDos) (p : payload).

Lemma find_user_put_ne us uid v oc :
  v ≠ uid → find_user (put_todos us uid oc) v = find_user us v.
Proof.
  intros Hne. induction us as [|x us IH]; simpl; [done|].
  destruct (decide (user_id x = uid)) as [Hx|Hx]; simpl.
  - rewrite !decide_False by congruence. done.
  - by rewrite IH.
Qed.

Lemma find_user_put_eq us uid usr oc :
  find_user us uid = Some usr →
  find_user (put_todos us uid oc) uid = Some (mkUser uid oc).
Proof.
  induction us as [|x us IH]; simpl; [done|].
  destruct (decide (user_id x = uid)) as [Hx|Hx]; simpl.
  - intros _. rewrite decide_True by done. by rewrite Hx.
  - intros Hu. rewrite decide_False by done. by apply IH.
Qed.

Lemma put_todos_ids {A} (g : string → A) us uid oc :
  (λ x, g (user_id x)) <$> put_todos us uid oc
  = (λ x, g (user_id x)) <$> us.
Proof.
  induction us as [|x us IH]; csimpl; [done|].
  destruct (decide (user_id x = uid)); csimpl; [done|]. by rewrite IH.
Qed.

Lemma stored_setFlag_eq w u usr p :
  find_user (game_users w) u = Some usr →
  stored_todos (setFlag u p w).2 u
  = Some (merge_on_write (stored_todos w u) p).
Proof.
  intros Hu. unfold stored_todos at 1. simpl.
  by rewrite (find_user_put_eq _ _ _ _ Hu).
Qed.

Lemma stored_setFlag_ne w u v p :
  v ≠ u → stored_todos (setFlag u p w).2 v = stored_todos w v.
Proof.
  intros Hne. unfold stored_todos. simpl. by rewrite find_user_put_ne.
Qed.

Lemma find_user_elem us uid usr : find_user us uid = Some usr → usr ∈ us.
Proof.
  induction us as [|x us IH]; simpl; [done|].
  case_decide; [intros [= <-]; by left | intros ?; right; by apply IH].
Qed.

Lemma Forall_put_todos (P : option ToDos → Prop) us uid oc :
  Forall (λ x, P (user_todos x)) us → P oc →
  Forall (λ x, P (user_todos x)) (put_todos us uid oc).
Proof.
  intros Hus Hoc. induction Hus as [|x us Hx Hus IH]; simpl; [done|].
  case_decide; by constructor.
Qed.

Lemma merge_entry_usable c e :
  usable_keys (Some c) → usable_keys (Some (merge_entry c e)).
Proof.
  simpl. intros Hc k x. unfold merge_entry.
  destruct (deletion_key e.1) as [k0|] eqn:He.
  - rewrite lookup_delete. case_decide; [done | apply Hc].
  - rewrite lookup_insert. case_decide; [by subst | apply Hc].
Qed.

Lemma merge_on_write_usable oc p :
  usable_keys oc → usable_keys (Some (merge_on_write oc p)).
Proof.
  unfold merge_on_write. intros Hoc.
  assert (usable_keys (Some (default ∅ oc))) as Hc.
  { destruct oc as [c|]; simpl; [done|]. apply map_Forall_empty. }
  clear Hoc. revert Hc. generalize (default ∅ oc).
  induction p as [|e p IH]; intros c Hc; simpl; [done|].
  by apply IH, merge_entry_usable.
Qed.

Lemma sentinel_free_stored w uid c k :
  sentinel_free w → stored_todos w uid = Some c → is_Some (c !! k) →
  deletion_key k = None.
Proof.
  unfold sentinel_free, stored_todos. intros Hw Hc [x Hx].
  destruct (find_user (game_users w) uid) as [usr|] eqn:Hu; [|done].
  apply find_user_elem in Hu. rewrite Forall_forall in Hw.
  specialize (Hw usr Hu). simpl in Hc. rewrite Hc in Hw.
  by apply (Hw k x).
Qed.

(** Whatever is written, on whichever document, the store stays free of
    sentinel keys. *)
Lemma sentinel_free_setFlag w u p :
  sentinel_free w → sentinel_free (setFlag u p w).2.
Proof.
  intros Hw. unfold sentinel_free. simpl.
  apply (Forall_put_todos usable_keys); [done|].
  apply merge_on_write_usable. unfold stored_todos.
  destruct (find_user (game_users w) u) as [usr|] eqn:Hu; [|done].
  apply find_user_elem in Hu. unfold sentinel_free in Hw.
  rewrite Forall_forall in Hw. by apply Hw.
Qed.

Lemma aggregated_sentinel_free w agg k :
  sentinel_free w → (allToDos w).1 = Normal agg → is_Some (agg !! k) →
  deletion_key k = None.
Proof.
  intros Hw Hagg [x Hx]. rewrite (allToDos_lookup _ _ _ Hagg) in Hx.
  apply last_entry_held in Hx as (c & Hc & Hk).
  unfold visited in Hc. apply list_elem_of_fmap in Hc as (usr & Hst & _).
  by eapply sentinel_free_stored.
Qed.

Lemma held_only_by_other w id u v :
  held_only_by w id u → v ≠ u → stored_todos w v ≫= (.!! id) = None.
Proof.
  unfold held_only_by. rewrite Forall_forall. intros Hw Hne.
  destruct (find_user (game_users w) v) as [usr|] eqn:Hv.
  - pose proof (find_user_id _ _ _ Hv) as Hid.
    apply find_user_elem in Hv. destruct (Hw usr Hv) as [?|Hnone].
    + congruence.
    + by rewrite Hid in Hnone.
  - unfold stored_todos. by rewrite Hv.
Qed.

Lemma last_entry_fmap_ext {A} (f g : A → option ToDos) (l : list A) k :
  (∀ x, x ∈ l → f x ≫= (.!! k) = g x ≫= (.!! k)) →
  last_entry (f <$> l) k = last_entry (g <$> l) k.
Proof.
  induction l as [|x l IH]; intros Hfg; csimpl; [done|].
  rewrite IH, Hfg; [done | by left |].
  intros y Hy. apply Hfg. by right.
Qed.

(** How [updateToDo] and [deleteToDo] run on an id the aggregation maps
    to a record. *)
Lemma updateToDo_present w agg id r d :
  (allToDos w).1 = Normal agg → agg !! id = Some (JObj r) →
  updateToDo id d w
  = match owner_of w r with
    | Some u => setFlag u [(id, d)] w
    | None => (Normal RetUndefined, w)
    end.
Proof.
  rewrite allToDos_run. intros [= <-] Hr.
  unfold updateToDo, op_bind at 1. rewrite allToDos_run.
  unfold js_index. rewrite Hr. unfold owner_of, get_userId.
  destruct (r !! "userId") as [[| |b|u]|]; try done.
  unfold op_bind, op_ret, users_get. simpl.
  by destruct (find_user (game_users w) u).
Qed.

Lemma deleteToDo_present w agg id r :
  (allToDos w).1 = Normal agg → agg !! id = Some (JObj r) →
  deleteToDo id w
  = match owner_of w r with
    | Some u => setFlag u [("-=" +:+ id, JNull)] w
    | None => (Normal RetUndefined, w)
    end.
Proof.
  rewrite allToDos_run. intros [= <-] Hr.
  unfold deleteToDo, op_bind at 1. rewrite allToDos_run.
  unfold js_index. rewrite Hr. unfold owner_of, get_userId.
  destruct (r !! "userId") as [[| |b|u]|]; try done.
  unfold op_bind, op_ret, users_get. simpl.
  by destruct (find_user (game_users w) u).
Qed.

(** ... and on an id the aggregation does not hold. *)
Lemma updateToDo_absent w agg id d :
  (allToDos w).1 = Normal agg → agg !! id = None →
  updateToDo id d w
  = (if bool_decide (id ∈ object_prototype)
     then Normal RetUndefined else Thrown TypeError, w).
Proof.
  rewrite allToDos_run. intros [= <-] Hr.
  unfold updateToDo, op_bind at 1. rewrite allToDos_run.
  unfold js_index. rewrite Hr. by case_bool_decide.
Qed.

Lemma deleteToDo_absent w agg id :
  (allToDos w).1 = Normal agg → agg !! id = None →
  deleteToDo id w
  = (if bool_decide (id ∈ object_prototype)
     then Normal RetUndefined else Thrown TypeError, w).
Proof.
  rewrite allToDos_run. intros [= <-] Hr.
  unfold deleteToDo, op_bind at 1. rewrite allToDos_run.
  unfold js_index. rewrite Hr. by case_bool_decide.
Qed.

Lemma owner_of_known w r u usr :
  r !! "userId" = Some (VString u) →
  find_user (game_users w) u = Some usr → owner_of w r = Some u.
Proof.
  intros Hr Hu. unfold owner_of. rewrite Hr, Hu. simpl.
  by rewrite (find_user_id _ _ _ Hu).
Qed.

End writes.

(** ** Creating *)

Section creates.
Implicit Types (w : World) (uid k t : string) (d : ToDo).

Lemma newToDo_id d t uid : newToDo d t uid !! "id" = Some (VString t).
Proof. unfold newToDo. by rewrite lookup_insert_ne, lookup_insert_eq. Qed.

Lemma newToDo_userId d t uid :
  newToDo d t uid !! "userId" = Some (VString uid).
Proof. unfold newToDo. by rewrite lookup_insert_eq. Qed.

Lemma newToDo_isDone d t uid :
  newToDo d t uid !! "isDone" = Some (default (VBool false) (d !! "isDone")).
Proof.
  unfold newToDo, spread. rewrite !lookup_insert_ne by done.
  rewrite lookup_union, lookup_singleton_eq. by destruct (d !! "isDone").
Qed.

Lemma newToDo_other d t uid k :
  k ≠ "id" → k ≠ "userId" → k ≠ "isDone" → newToDo d t uid !! k = d !! k.
Proof.
  intros. unfold newToDo, spread. rewrite !lookup_insert_ne by done.
  rewrite lookup_union, lookup_singleton_ne by done. by destruct (d !! k).
Qed.

Lemma createToDo_known w uid usr d :
  find_user (game_users w) uid = Some usr →
  createToDo uid d w
  = setFlag uid
      [(entropy w (draws w), JObj (newToDo d (entropy w (draws w)) uid))]
      (drawn w).
Proof.
  intros Hu. unfold createToDo, op_bind, randomID. fold (drawn w).
  rewrite (users_get_known (drawn w) uid usr Hu).
  by rewrite newToDo_id.
Qed.

End creates.

Section sequences.
Implicit Types (w : World) (uid k : string) (d : ToDo).

Lemma createToDos_run uid datas : ∀ w usr,
  find_user (game_users w) uid = Some usr →
  ∃ w',
    createToDos uid datas w
      = (Normal (replicate (length datas) RetPromise), w') ∧
    flag_writes w'
      = flag_writes w
        ++ imap (λ i d, (uid, [(entropy w (draws w + i),
                                JObj (newToDo d (entropy w (draws w + i))
                                        uid))])) datas ∧
    ((∀ i j, entropy w i = entropy w j → i = j) →
     (∀ i, deletion_key (entropy w i) = None) →
     (∀ i d, datas !! i = Some d →
             stored_todos w' uid ≫= (.!! entropy w (draws w + i))
             = Some (JObj (newToDo d (entropy w (draws w + i)) uid))) ∧
     (∀ k, (∀ i, i < length datas → k ≠ entropy w (draws w + i)) →
           stored_todos w' uid ≫= (.!! k) = stored_todos w uid ≫= (.!! k))).
Proof.
  induction datas as [|d rest IH]; intros w usr Hu.
  { exists w. simpl. split_and!; [done | by rewrite app_nil_r |].
    intros _ _. split; [|done]. intros i d Hd. done. }
  set (t0 := entropy w (draws w)).
  set (p := [(t0, JObj (newToDo d t0 uid))]).
  set (w1 := (setFlag uid p (drawn w)).2).
  assert (find_user (game_users w1) uid
          = Some (mkUser uid
                    (Some (merge_on_write (stored_todos (drawn w) uid) p))))
    as Hu1.
  { unfold w1. simpl. by apply (find_user_put_eq _ _ usr). }
  destruct (IH w1 _ Hu1) as (w' & Hrun & Hwrites & Hstore).
  exists w'. split_and!.
  - simpl. unfold op_bind at 1.
    rewrite (createToDo_known _ _ _ _ Hu). fold t0 p.
    change (setFlag uid p (drawn w)) with (Normal RetPromise, w1).
    unfold op_bind at 1. by rewrite Hrun.
  - rewrite Hwrites. unfold w1 at 1. simpl.
    rewrite <- app_assoc. f_equal. simpl. unfold t0.
    rewrite Nat.add_0_r. f_equal.
    apply imap_ext. intros i x _. simpl.
    by rewrite Nat.add_succ_r.
  - intros Hinj Hkey.
    destruct (Hstore Hinj Hkey) as [Hheld Hframe].
    assert (stored_todos w1 uid
            = Some (<[t0 := JObj (newToDo d t0 uid)]>
                      (default ∅ (stored_todos w uid)))) as Hw1.
    { unfold w1. rewrite (stored_setFlag_eq (drawn w) _ usr) by done.
      f_equal. unfold p, merge_on_write, merge_entry. simpl.
      unfold t0. by rewrite Hkey. }
    split.
    + intros [|i] x Hx; simpl in Hx.
      * injection Hx as ->. rewrite Nat.add_0_r. fold t0.
        rewrite Hframe.
        { rewrite Hw1. simpl. apply lookup_insert_eq. }
        intros i _ Heq. unfold t0 in Heq. simpl in Heq.
        apply Hinj in Heq. lia.
      * rewrite Nat.add_succ_r. by apply (Hheld i x).
    + intros k Hk. rewrite Hframe.
      * rewrite Hw1. simpl. rewrite lookup_insert_ne.
        { destruct (stored_todos w uid); simpl; [done | apply lookup_empty]. }
        unfold t0. specialize (Hk 0 ltac:(simpl; lia)).
        rewrite Nat.add_0_r in Hk. done.
      * intros i Hi. simpl. rewrite <- Nat.add_succ_r.
        apply Hk. simpl. lia.
Qed.

Lemma sample_entropy_inj i j : sample_entropy i = sample_entropy j → i = j.
Proof.
  unfold sample_entropy. simpl. intros [= Heq]. by apply (inj pretty).
Qed.

End sequences.

(** The scenario of the specification, run on the model: [u1] has no
    todos; one is created, then marked done by a full replacement, then
    deleted. *)
Example scenario_u1 :
  let '(_, w1) := createToDo "u1" buy_milk w_u1 in
  let done := <[ "isDone" := VBool true ]> (newToDo buy_milk "tok0" "u1") in
  let '(_, w2) := updateToDo "tok0" (JObj done) w1 in
  let '(_, w3) := deleteToDo "tok0" w2 in
  stored_todos w1 "u1"
    = Some {[ "tok0" := JObj (newToDo buy_milk "tok0" "u1") ]} ∧
  newToDo buy_milk "tok0" "u1" !! "isDone" = Some (VBool false) ∧
  stored_todos w2 "u1" = Some {[ "tok0" := JObj done ]} ∧
  stored_todos w3 "u1" = Some ∅ ∧
  flag_writes w3
    = [ ("u1", [("tok0", JObj (newToDo buy_milk "tok0" "u1"))]);
        ("u1", [("tok0", JObj done)]);
        ("u1", [("-=tok0", JNull)]) ].
Proof. vm_compute. repeat split; reflexivity. Qed.

(** ** The claims *)

(** C7: [getToDosForUser(userId)] hands back exactly what the flag store
    holds for that user: nothing ([undefined]) when no document is stored
    under the id, and otherwise the flag of the document as it is, unset or
    set, with no empty collection put in the place of an unset flag. The
    call never throws and leaves the world as it was. *)
Theorem getToDosForUser_returns_stored (userId : string) (w : World) :
  getToDosForUser userId w
  = (Normal (match find_user (game_users w) userId with
             | Some usr => user_todos usr
             | None => None
             end), w).
Proof.
  rewrite getToDosForUser_run. unfold stored_todos.
  by destruct (find_user (game_users w) userId).
Qed.

(** C4: the [allToDos] getter returns, without throwing and without
    changing the world, the merge in enumeration order of what
    [getToDosForUser] gives for each user: a key of the result carries the
    entry of the last collection that holds it, so unset flags add nothing,
    every key held by some collection is present, every entry of the result
    comes from some collection, and a later user's entry wins a collision. *)
Theorem allToDos_merges_in_order (w : World) :
  ∃ agg : ToDos,
    allToDos w = (Normal agg, w) ∧
    Forall2 (λ usr oc, getToDosForUser (user_id usr) w = (Normal oc, w))
      (game_users w) (visited w) ∧
    (∀ k, agg !! k = last_entry (visited w) k) ∧
    (∀ c k v, Some c ∈ visited w → c !! k = Some v → is_Some (agg !! k)) ∧
    (∀ k v, agg !! k = Some v → ∃ c, Some c ∈ visited w ∧ c !! k = Some v) ∧
    (∀ cs1 c cs2 k v,
       visited w = cs1 ++ Some c :: cs2 → c !! k = Some v →
       (∀ c', Some c' ∈ cs2 → c' !! k = None) → agg !! k = Some v).
Proof.
  rewrite allToDos_run. eexists. split; [done|].
  assert (∀ k,
    fold_left (λ a u, spread_opt a (stored_todos w (user_id u)))
      (game_users w) ∅ !! k = last_entry (visited w) k) as Hlook.
  { intros k. apply allToDos_lookup. by rewrite allToDos_run. }
  split_and!.
  - clear Hlook. unfold visited.
    induction (game_users w) as [|usr us IH]; csimpl.
    + constructor.
    + constructor; [apply getToDosForUser_run | exact IH].
  - done.
  - intros c k v Hc Hk. rewrite Hlook.
    destruct (last_entry (visited w) k) as [x|] eqn:Hl; [done|].
    rewrite last_entry_None in Hl. specialize (Hl c Hc). congruence.
  - intros k v. rewrite Hlook. apply last_entry_held.
  - intros cs1 c cs2 k v Hsplit Hk Hlater. rewrite Hlook, Hsplit.
    rewrite last_entry_app. simpl.
    apply last_entry_None in Hlater. rewrite Hlater. simpl. by rewrite Hk.
Qed.

(** C10: when the id is in no collection of the aggregation, [updateToDo]
    and [deleteToDo] end, by returning or by throwing, in the world they
    started in: no flag write was issued and every collection is as it
    was. *)
Theorem unknown_id_issues_no_write
    (w : World) (agg : ToDos) (toDoId : string) (updateData : jsval) :
  (allToDos w).1 = Normal agg →
  agg !! toDoId = None →
  (updateToDo toDoId updateData w).2 = w ∧
  (deleteToDo toDoId w).2 = w ∧
  flag_writes (updateToDo toDoId updateData w).2 = flag_writes w ∧
  flag_writes (deleteToDo toDoId w).2 = flag_writes w.
Proof.
  intros Hagg Habs.
  rewrite (updateToDo_absent _ _ _ _ Hagg Habs).
  by rewrite (deleteToDo_absent _ _ _ Hagg Habs).
Qed.

Lemma unknown_id_issues_no_write_witness :
  (updateToDo "z" (JObj buy_milk) w_two).2 = w_two ∧
  (deleteToDo "z" w_two).2 = w_two ∧
  flag_writes (updateToDo "z" (JObj buy_milk) w_two).2 = [] ∧
  flag_writes (deleteToDo "z" w_two).2 = [].
Proof.
  eapply (unknown_id_issues_no_write w_two); [reflexivity|].
  vm_compute. reflexivity.
Defined.

(** C1: on the id ["nonexistent"], which no collection holds, both
    [updateToDo] and [deleteToDo] throw a [TypeError]: the property read
    [relevantToDo.userId] is made on [undefined]. The world is untouched. *)
Theorem unknown_id_throws :
  updateToDo "nonexistent" (JObj buy_milk) w_u1 = (Thrown TypeError, w_u1) ∧
  deleteToDo "nonexistent" w_u1 = (Thrown TypeError, w_u1).
Proof.
  split.
  - erewrite updateToDo_absent; [reflexivity | reflexivity |].
    vm_compute. reflexivity.
  - erewrite deleteToDo_absent; [reflexivity | reflexivity |].
    vm_compute. reflexivity.
Qed.

(** C6: [createToDo] for a user id under which no document is stored
    returns [undefined] without throwing; no flag write is issued and the
    user collection is what it was. *)
Theorem createToDo_unknown_user
    (userId : string) (toDoData : ToDo) (w : World) :
  find_user (game_users w) userId = None →
  ∃ w', createToDo userId toDoData w = (Normal RetUndefined, w') ∧
        game_users w' = game_users w ∧
        flag_writes w' = flag_writes w.
Proof.
  intros Hu. exists (drawn w). split; [|done].
  unfold createToDo, op_bind, randomID. fold (drawn w).
  by rewrite (users_get_unknown (drawn w) userId Hu).
Qed.

Lemma createToDo_unknown_user_witness :
  ∃ w', createToDo "nobody" buy_milk w_two = (Normal RetUndefined, w') ∧
        game_users w' = game_users w_two ∧
        flag_writes w' = flag_writes w_two.
Proof. apply (createToDo_unknown_user "nobody" buy_milk w_two). reflexivity. Defined.

(** C9: for an id the aggregation maps to a record, [updateToDo] and
    [deleteToDo] issue their write on the document of the user that the
    record's [userId] field names, wherever the record was found; when that
    field names no known user they return [undefined] and write nothing. *)
Theorem update_delete_route_by_userId
    (w : World) (agg : ToDos) (toDoId : string) (r : ToDo)
    (updateData : jsval) :
  (allToDos w).1 = Normal agg →
  agg !! toDoId = Some (JObj r) →
  (∀ u usr,
     r !! "userId" = Some (VString u) →
     find_user (game_users w) u = Some usr →
     updateToDo toDoId updateData w = setFlag u [(toDoId, updateData)] w ∧
     deleteToDo toDoId w = setFlag u [("-=" +:+ toDoId, JNull)] w ∧
     flag_writes (updateToDo toDoId updateData w).2
       = flag_writes w ++ [(u, [(toDoId, updateData)])] ∧
     flag_writes (deleteToDo toDoId w).2
       = flag_writes w ++ [(u, [("-=" +:+ toDoId, JNull)])]) ∧
  ((∀ u, r !! "userId" = Some (VString u) →
         find_user (game_users w) u = None) →
   updateToDo toDoId updateData w = (Normal RetUndefined, w) ∧
   deleteToDo toDoId w = (Normal RetUndefined, w)).
Proof.
  intros Hagg Hr. split.
  - intros u usr Hfield Hu.
    rewrite (updateToDo_present _ _ _ _ _ Hagg Hr).
    rewrite (deleteToDo_present _ _ _ _ Hagg Hr).
    by rewrite (owner_of_known _ _ _ _ Hfield Hu).
  - intros Hnone.
    rewrite (updateToDo_present _ _ _ _ _ Hagg Hr).
    rewrite (deleteToDo_present _ _ _ _ Hagg Hr).
    unfold owner_of. destruct (r !! "userId") as [[| |b|u]|]; try done.
    by rewrite (Hnone u eq_refl).
Qed.

Lemma update_delete_route_by_userId_witness :
  (stored_todos w_misfiled "u1" ≫= (.!! "m")
   = Some (JObj {[ "label" := VString "x"; "userId" := VString "u2" ]})) ∧
  flag_writes (updateToDo "m" (JObj buy_milk) w_misfiled).2
    = [("u2", [("m", JObj buy_milk)])] ∧
  flag_writes (deleteToDo "m" w_misfiled).2 = [("u2", [("-=m", JNull)])] ∧
  updateToDo "g" (JObj buy_milk) w_misfiled = (Normal RetUndefined, w_misfiled) ∧
  deleteToDo "g" w_misfiled = (Normal RetUndefined, w_misfiled).
Proof.
  split; [vm_compute; reflexivity|].
  destruct (update_delete_route_by_userId w_misfiled
              (<[ "m" := JObj {[ "label" := VString "x";
                                 "userId" := VString "u2" ]} ]>
                 {[ "g" := JObj {[ "userId" := VString "gone" ]} ]})
              "m" {[ "label" := VString "x"; "userId" := VString "u2" ]}
              (JObj buy_milk))
    as [Hm _]; [vm_compute; reflexivity | vm_compute; reflexivity |].
  destruct (Hm "u2" (mkUser "u2" None)) as (_ & _ & Hu & Hd);
    [vm_compute; reflexivity | reflexivity |].
  destruct (update_delete_route_by_userId w_misfiled
              (<[ "m" := JObj {[ "label" := VString "x";
                                 "userId" := VString "u2" ]} ]>
                 {[ "g" := JObj {[ "userId" := VString "gone" ]} ]})
              "g" {[ "userId" := VString "gone" ]} (JObj buy_milk))
    as [_ Hg]; [vm_compute; reflexivity | vm_compute; reflexivity |].
  split; [exact Hu|]. split; [exact Hd|].
  apply Hg. intros u Hfield.
  assert (u = "gone") as ->; [|reflexivity].
  vm_compute in Hfield. congruence.
Defined.

(** C3: for an id the aggregation maps to a record whose [userId] names a
    known user, [updateToDo] issues the one write [{toDoId: updateData}] on
    that user's document; afterwards the collection holds [updateData] itself
    under that id, whatever the record was before, every other id of the
    collection is as it was, and so is every other user's flag. *)
Theorem updateToDo_replaces_record
    (w : World) (agg : ToDos) (toDoId : string) (r : ToDo) (u : string)
    (usr : User) (updateData : jsval) :
  sentinel_free w →
  (allToDos w).1 = Normal agg →
  agg !! toDoId = Some (JObj r) →
  r !! "userId" = Some (VString u) →
  find_user (game_users w) u = Some usr →
  ∃ w',
    updateToDo toDoId updateData w = (Normal RetPromise, w') ∧
    flag_writes w' = flag_writes w ++ [(u, [(toDoId, updateData)])] ∧
    stored_todos w' u
      = Some (<[toDoId := updateData]> (default ∅ (stored_todos w u))) ∧
    stored_todos w' u ≫= (.!! toDoId) = Some updateData ∧
    (∀ k, k ≠ toDoId →
          stored_todos w' u ≫= (.!! k) = stored_todos w u ≫= (.!! k)) ∧
    (∀ v, v ≠ u → stored_todos w' v = stored_todos w v).
Proof.
  intros Hfree Hagg Hr Hfield Hu.
  assert (deletion_key toDoId = None) as Hkey.
  { eapply aggregated_sentinel_free; [done..|]. by rewrite Hr. }
  exists (setFlag u [(toDoId, updateData)] w).2.
  rewrite (updateToDo_present _ _ _ _ _ Hagg Hr).
  rewrite (owner_of_known _ _ _ _ Hfield Hu).
  assert (stored_todos (setFlag u [(toDoId, updateData)] w).2 u
          = Some (<[toDoId := updateData]> (default ∅ (stored_todos w u))))
    as Hstored.
  { rewrite (stored_setFlag_eq _ _ _ _ Hu). f_equal.
    unfold merge_on_write, merge_entry. simpl. by rewrite Hkey. }
  split_and!; [done | done | done | | |].
  - rewrite Hstored. simpl. apply lookup_insert_eq.
  - intros k Hk. rewrite Hstored. simpl. rewrite lookup_insert_ne by done.
    destruct (stored_todos w u); simpl; [done | apply lookup_empty].
  - intros v Hv. by apply stored_setFlag_ne.
Qed.

(** C5: for an id the aggregation maps to a record whose [userId] names a
    known user, [deleteToDo] issues the one write [{"-=" + toDoId: null}] on
    that user's document; afterwards the id is gone from that collection
    while every other id of it, and every other user's flag, is as it was.
    When that collection is the only one to hold the id, as the data model
    has it, the record was there and the aggregation loses exactly that
    id. *)
Theorem deleteToDo_removes_exactly_one
    (w : World) (agg : ToDos) (toDoId : string) (r : ToDo) (u : string)
    (usr : User) :
  (allToDos w).1 = Normal agg →
  agg !! toDoId = Some (JObj r) →
  r !! "userId" = Some (VString u) →
  find_user (game_users w) u = Some usr →
  ∃ w',
    deleteToDo toDoId w = (Normal RetPromise, w') ∧
    flag_writes w' = flag_writes w ++ [(u, [("-=" +:+ toDoId, JNull)])] ∧
    stored_todos w' u
      = Some (delete toDoId (default ∅ (stored_todos w u))) ∧
    (∀ v, v ≠ u → stored_todos w' v = stored_todos w v) ∧
    (held_only_by w toDoId u →
     stored_todos w u ≫= (.!! toDoId) = Some (JObj r) ∧
     allToDos w' = (Normal (delete toDoId agg), w')).
Proof.
  intros Hagg Hr Hfield Hu.
  set (p := [("-=" +:+ toDoId, JNull)]).
  exists (setFlag u p w).2.
  rewrite (deleteToDo_present _ _ _ _ Hagg Hr).
  rewrite (owner_of_known _ _ _ _ Hfield Hu). fold p.
  assert (stored_todos (setFlag u p w).2 u
          = Some (delete toDoId (default ∅ (stored_todos w u)))) as Hstored.
  { by rewrite (stored_setFlag_eq _ _ _ _ Hu). }
  assert (∀ v, v ≠ u → stored_todos (setFlag u p w).2 v = stored_todos w v)
    as Hframe.
  { intros v Hv. by apply stored_setFlag_ne. }
  split_and!; [done..|]. intros Honly.
  assert (∃ c, stored_todos w u = Some c ∧ c !! toDoId = Some (JObj r))
    as (c & Hc & Hcr).
  { pose proof Hr as Hr'. rewrite (allToDos_lookup _ _ _ Hagg) in Hr'.
    apply last_entry_held in Hr' as (c & Hin & Hk).
    unfold visited in Hin. apply list_elem_of_fmap in Hin as (x & Hst & Hx).
    exists c. split; [|done].
    destruct (decide (user_id x = u)) as [<-|Hne]; [done|].
    pose proof (held_only_by_other _ _ _ _ Honly Hne) as Hnone.
    rewrite <- Hst in Hnone. simpl in Hnone. congruence. }
  split; [by rewrite Hc|].
  rewrite Hc in Hstored. change (default ∅ (Some c)) with c in Hstored.
  rewrite allToDos_run. f_equal. f_equal. apply map_eq. intros k.
  rewrite (fold_spread_lookup (stored_todos (setFlag u p w).2)).
  simpl game_users.
  rewrite (put_todos_ids (stored_todos (setFlag u p w).2)).
  rewrite lookup_empty.
  assert (last_entry
            ((λ x, stored_todos (setFlag u p w).2 (user_id x))
               <$> game_users w) k
          = delete toDoId agg !! k) as ->; [|by destruct (delete _ _ !! k)].
  rewrite lookup_delete. case_decide as Hk.
  - subst k. apply last_entry_None. intros c' Hin.
    apply list_elem_of_fmap in Hin as (x & Hst & Hx).
    destruct (decide (user_id x = u)) as [Hxu|Hne].
    + rewrite Hxu, Hstored in Hst. injection Hst as ->.
      apply lookup_delete_eq.
    + rewrite (Hframe _ Hne) in Hst.
      pose proof (held_only_by_other _ _ _ _ Honly Hne) as Hnone.
      rewrite <- Hst in Hnone. done.
  - rewrite (allToDos_lookup _ _ _ Hagg). unfold visited.
    apply last_entry_fmap_ext. intros x _.
    destruct (decide (user_id x = u)) as [Hxu|Hne].
    + rewrite Hxu, Hstored, Hc. simpl. by apply lookup_delete_ne.
    + by rewrite (Hframe _ Hne).
Qed.

(** C8: for a known user, the one write [createToDo] issues is the
    single-entry mapping keyed by the generated token, and the record under
    that key carries the same token in its [id] field; so a store in which
    every record sits under the key its [id] spells is still such a store
    afterwards. *)
Theorem createToDo_keys_record_by_id
    (w : World) (userId : string) (usr : User) (toDoData : ToDo) :
  find_user (game_users w) userId = Some usr →
  let token := entropy w (draws w) in
  let record := newToDo toDoData token userId in
  ∃ w',
    createToDo userId toDoData w = (Normal RetPromise, w') ∧
    flag_writes w' = flag_writes w ++ [(userId, [(token, JObj record)])] ∧
    record !! "id" = Some (VString token) ∧
    (deletion_key token = None →
     stored_todos w' userId ≫= (.!! token) = Some (JObj record)) ∧
    (keyed_by_id w → keyed_by_id w').
Proof.
  intros Hu token record.
  set (p := [(token, JObj record)]).
  exists (setFlag userId p (drawn w)).2.
  rewrite (createToDo_known _ _ _ _ Hu). fold token record p.
  split_and!; [done | done | apply newToDo_id | |].
  - intros Hkey. rewrite (stored_setFlag_eq (drawn w) _ usr) by done.
    unfold p, merge_on_write, merge_entry. simpl. rewrite Hkey. simpl.
    apply lookup_insert_eq.
  - intros Hinv. unfold keyed_by_id in *. simpl.
    apply (Forall_put_todos
             (λ oc, match oc with
                    | Some c =>
                        map_Forall (λ k x, ∀ o, x = JObj o →
                                     o !! "id" = Some (VString k)) c
                    | None => True
                    end)); [done|].
    assert (map_Forall (λ k x, ∀ o, x = JObj o → o !! "id" = Some (VString k))
              (default ∅ (stored_todos (drawn w) userId))) as Hc.
    { unfold stored_todos. simpl. rewrite Hu. simpl.
      apply find_user_elem in Hu. rewrite Forall_forall in Hinv.
      specialize (Hinv usr Hu). destruct (user_todos usr); simpl; [done|].
      apply map_Forall_empty. }
    unfold p, merge_on_write, merge_entry. simpl.
    destruct (deletion_key token) as [k0|] eqn:Hkey.
    + intros k x. rewrite lookup_delete. case_decide; [done | apply Hc].
    + intros k x. rewrite lookup_insert. case_decide as Hk; [|apply Hc].
      intros [= <-] o [= <-]. subst k. apply newToDo_id.
Qed.

(** C2: a sequence of [createToDo] calls for a known user issues, call by
    call, the write of the record [{isDone: false, ...toDoData, id, userId}]:
    its [id] is the token drawn at that call and its [userId] the calling
    user, whatever [toDoData] says for these two fields; [isDone] is the
    caller's when supplied and [false] otherwise; every other field is the
    caller's. When the generator never repeats, records of distinct calls
    have distinct ids, and (no token carrying the deletion sentinel) each
    record is found in the user's collection under its id at the end. *)
Theorem createToDo_sequence
    (w : World) (userId : string) (usr : User) (datas : list ToDo) :
  find_user (game_users w) userId = Some usr →
  let token i := entropy w (draws w + i) in
  let record i toDoData := newToDo toDoData (token i) userId in
  ∃ w',
    createToDos userId datas w
      = (Normal (replicate (length datas) RetPromise), w') ∧
    flag_writes w'
      = flag_writes w
        ++ imap (λ i toDoData, (userId, [(token i, JObj (record i toDoData))]))
             datas ∧
    (∀ i toDoData,
       record i toDoData !! "id" = Some (VString (token i)) ∧
       record i toDoData !! "userId" = Some (VString userId) ∧
       record i toDoData !! "isDone"
         = Some (default (VBool false) (toDoData !! "isDone")) ∧
       ∀ k, k ≠ "id" → k ≠ "userId" → k ≠ "isDone" →
            record i toDoData !! k = toDoData !! k) ∧
    ((∀ i j, entropy w i = entropy w j → i = j) →
     (∀ i j di dj, datas !! i = Some di → datas !! j = Some dj → i ≠ j →
                   record i di !! "id" ≠ record j dj !! "id") ∧
     ((∀ i, deletion_key (entropy w i) = None) →
      ∀ i toDoData, datas !! i = Some toDoData →
        stored_todos w' userId ≫= (.!! token i)
        = Some (JObj (record i toDoData)))).
Proof.
  intros Hu token record.
  destruct (createToDos_run userId datas w usr Hu)
    as (w' & Hrun & Hwrites & Hstore).
  exists w'. split_and!; [done | done | |].
  - intros i d. unfold record. split_and!.
    + apply newToDo_id.
    + apply newToDo_userId.
    + apply newToDo_isDone.
    + intros k. apply newToDo_other.
  - intros Hinj. split.
    + intros i j di dj _ _ Hij. unfold record. rewrite !newToDo_id.
      intros [= Heq]. unfold token in Heq. apply Hinj in Heq. lia.
    + intros Hkey i d Hd. by apply (Hstore Hinj Hkey).
Qed.

Lemma createToDo_sequence_witness :
  ∃ w',
    createToDos "u1" [buy_milk; forged] w_u1
      = (Normal [RetPromise; RetPromise], w') ∧
    flag_writes w'
      = [("u1", [("tok0", JObj (newToDo buy_milk "tok0" "u1"))]);
         ("u1", [("tok1", JObj (newToDo forged "tok1" "u1"))])] ∧
    newToDo forged "tok1" "u1" !! "id" = Some (VString "tok1") ∧
    newToDo forged "tok1" "u1" !! "userId" = Some (VString "u1") ∧
    newToDo forged "tok1" "u1" !! "isDone" = Some (VBool true) ∧
    newToDo buy_milk "tok0" "u1" !! "isDone" = Some (VBool false) ∧
    stored_todos w' "u1" ≫= (.!! "tok0")
      = Some (JObj (newToDo buy_milk "tok0" "u1")) ∧
    stored_todos w' "u1" ≫= (.!! "tok1")
      = Some (JObj (newToDo forged "tok1" "u1")).
Proof.
  destruct (createToDo_sequence w_u1 "u1" (mkUser "u1" None)
              [buy_milk; forged] eq_refl)
    as (w' & Hrun & Hwrites & Hrecord & Hrest).
  destruct (Hrest sample_entropy_inj) as [_ Hstored].
  exists w'. split; [exact Hrun|]. split; [exact Hwrites|].
  destruct (Hrecord 1 forged) as (Hid & Huser & Hdone & _).
  destruct (Hrecord 0 buy_milk) as (_ & _ & Hdone0 & _).
  split; [exact Hid|]. split; [exact Huser|].
  split; [exact Hdone|]. split; [exact Hdone0|].
  split.
  - apply (Hstored (λ i, eq_refl) 0 buy_milk). reflexivity.
  - apply (Hstored (λ i, eq_refl) 1 forged). reflexivity.
Defined.

Lemma updateToDo_replaces_record_witness :
  ∃ w',
    updateToDo "a" (JObj {[ "label" := VString "x" ]}) w_two
      = (Normal RetPromise, w') ∧
    flag_writes w' = [("u1", [("a", JObj {[ "label" := VString "x" ]})])] ∧
    stored_todos w' "u1" ≫= (.!! "a")
      = Some (JObj {[ "label" := VString "x" ]}) ∧
    stored_todos w' "u1" ≫= (.!! "b") = Some (JObj todo_b) ∧
    stored_todos w' "u2" = stored_todos w_two "u2".
Proof.
  destruct (updateToDo_replaces_record w_two
              (<[ "c" := JObj todo_c ]>
                 {[ "a" := JObj todo_a; "b" := JObj todo_b ]})
              "a" todo_a "u1"
              (mkUser "u1" (Some {[ "a" := JObj todo_a; "b" := JObj todo_b ]}))
              (JObj {[ "label" := VString "x" ]}))
    as (w' & Hrun & Hwrites & _ & Hat & Hsib & Hothers).
  - apply (bool_decide_unpack _). vm_compute. exact I.
  - vm_compute. reflexivity.
  - vm_compute. reflexivity.
  - vm_compute. reflexivity.
  - reflexivity.
  - exists w'. split; [exact Hrun|]. split; [exact Hwrites|].
    split; [exact Hat|]. split.
    + rewrite (Hsib "b"); [reflexivity | discriminate].
    + apply Hothers. discriminate.
Defined.

Lemma deleteToDo_removes_exactly_one_witness :
  ∃ w',
    deleteToDo "a" w_two = (Normal RetPromise, w') ∧
    flag_writes w' = [("u1", [("-=a", JNull)])] ∧
    stored_todos w' "u1" = Some {[ "b" := JObj todo_b ]} ∧
    stored_todos w' "u2" = stored_todos w_two "u2" ∧
    allToDos w'
      = (Normal (<[ "c" := JObj todo_c ]> {[ "b" := JObj todo_b ]}), w').
Proof.
  destruct (deleteToDo_removes_exactly_one w_two
              (<[ "c" := JObj todo_c ]>
                 {[ "a" := JObj todo_a; "b" := JObj todo_b ]})
              "a" todo_a "u1"
              (mkUser "u1" (Some {[ "a" := JObj todo_a; "b" := JObj todo_b ]})))
    as (w' & Hrun & Hwrites & Hstored & Hothers & Hagg).
  - vm_compute. reflexivity.
  - vm_compute. reflexivity.
  - vm_compute. reflexivity.
  - reflexivity.
  - exists w'. split; [exact Hrun|]. split; [exact Hwrites|].
    split; [rewrite Hstored; vm_compute; reflexivity|].
    split; [apply Hothers; discriminate|].
    destruct Hagg as [_ ->].
    + apply (bool_decide_unpack _). vm_compute. exact I.
    + vm_compute. reflexivity.
Defined.

Lemma createToDo_keys_record_by_id_witness :
  ∃ w',
    createToDo "u2" forged w_two = (Normal RetPromise, w') ∧
    flag_writes w' = [("u2", [("tok0", JObj (newToDo forged "tok0" "u2"))])] ∧
    newToDo forged "tok0" "u2" !! "id" = Some (VString "tok0") ∧
    stored_todos w' "u2" ≫= (.!! "tok0")
      = Some (JObj (newToDo forged "tok0" "u2")).
Proof.
  destruct (createToDo_keys_record_by_id w_two "u2"
              (mkUser "u2" (Some {[ "c" := JObj todo_c ]})) forged eq_refl)
    as (w' & Hrun & Hwrites & Hid & Hstored & _).
  exists w'. split; [exact Hrun|]. split; [exact Hwrites|].
  split; [exact Hid|]. apply Hstored. reflexivity.
Defined.

(** ** Further properties of the class *)

Section further.
Implicit Types (w : World) (us : list User) (uid u v k id : string).
Implicit Types (c : ToDos) (p : payload) (d x : jsval).

Lemma find_user_put_known us uid v oc :
  user_id <$> find_user (put_todos us uid oc) v = user_id <$> find_user us v.
Proof.
  induction us as [|y us IH]; simpl; [done|].
  destruct (decide (user_id y = uid)) as [Hy|Hy]; simpl.
  - by destruct (decide (user_id y = v)).
  - destruct (decide (user_id y = v)); [done | apply IH].
Qed.

Lemma owner_of_is_known w r u :
  owner_of w r = Some u →
  r !! "userId" = Some (VString u) ∧ is_Some (find_user (game_users w) u).
Proof.
  unfold owner_of. destruct (r !! "userId") as [[| |b|u']|]; try done.
  destruct (find_user (game_users w) u') as [usr|] eqn:Hu; [|done].
  simpl. intros [= <-]. by rewrite (find_user_id _ _ _ Hu).
Qed.

Lemma updateToDo_null w agg id d :
  (allToDos w).1 = Normal agg → agg !! id = Some JNull →
  updateToDo id d w = (Thrown TypeError, w).
Proof.
  rewrite allToDos_run. intros [= <-] Hr.
  unfold updateToDo, op_bind at 1. rewrite allToDos_run.
  unfold js_index. by rewrite Hr.
Qed.

Lemma deleteToDo_null w agg id :
  (allToDos w).1 = Normal agg → agg !! id = Some JNull →
  deleteToDo id w = (Thrown TypeError, w).
Proof.
  rewrite allToDos_run. intros [= <-] Hr.
  unfold deleteToDo, op_bind at 1. rewrite allToDos_run.
  unfold js_index. by rewrite Hr.
Qed.

Lemma updateToDo_cases w id d :
  (updateToDo id d w).2 = w ∨
  ∃ u, is_Some (find_user (game_users w) u) ∧
       updateToDo id d w = setFlag u [(id, d)] w.
Proof.
  assert (∃ agg, (allToDos w).1 = Normal agg) as [agg Hagg].
  { rewrite allToDos_run. by eexists. }
  destruct (agg !! id) as [[|r]|] eqn:Hr.
  - left. by rewrite (updateToDo_null _ _ _ _ Hagg Hr).
  - rewrite (updateToDo_present _ _ _ _ _ Hagg Hr).
    destruct (owner_of w r) as [u|] eqn:Ho; [|by left].
    right. exists u. split; [|done]. by apply owner_of_is_known in Ho as [_ ?].
  - left. by rewrite (updateToDo_absent _ _ _ _ Hagg Hr).
Qed.

Lemma deleteToDo_cases w id :
  (deleteToDo id w).2 = w ∨
  ∃ u, is_Some (find_user (game_users w) u) ∧
       deleteToDo id w = setFlag u [("-=" +:+ id, JNull)] w.
Proof.
  assert (∃ agg, (allToDos w).1 = Normal agg) as [agg Hagg].
  { rewrite allToDos_run. by eexists. }
  destruct (agg !! id) as [[|r]|] eqn:Hr.
  - left. by rewrite (deleteToDo_null _ _ _ Hagg Hr).
  - rewrite (deleteToDo_present _ _ _ _ Hagg Hr).
    destruct (owner_of w r) as [u|] eqn:Ho; [|by left].
    right. exists u. split; [|done]. by apply owner_of_is_known in Ho as [_ ?].
  - left. by rewrite (deleteToDo_absent _ _ _ Hagg Hr).
Qed.

Lemma updateUserToDos_cases w uid p :
  updateUserToDos uid p w
  = match find_user (game_users w) uid with
    | Some _ => setFlag uid p w
    | None => (Normal RetUndefined, w)
    end.
Proof.
  unfold updateUserToDos, op_bind.
  destruct (find_user (game_users w) uid) as [usr|] eqn:Hu.
  - by rewrite (users_get_known _ _ _ Hu).
  - by rewrite (users_get_unknown _ _ Hu).
Qed.

Lemma createToDo_unknown_run w uid (toDoData : ToDo) :
  find_user (game_users w) uid = None →
  createToDo uid toDoData w = (Normal RetUndefined, drawn w).
Proof.
  intros Hu. unfold createToDo, op_bind, randomID. fold (drawn w).
  by rewrite (users_get_unknown (drawn w) uid Hu).
Qed.

Lemma setFlag_one_write w w0 u p :
  is_Some (find_user (game_users w) u) →
  game_users w0 = game_users w → flag_writes w0 = flag_writes w →
  one_write_at_most w (setFlag u p w0).2.
Proof.
  intros Hu Hus Hws. split.
  - simpl. rewrite Hus. apply (put_todos_ids id).
  - right. exists u, p. split_and!; [done | by simpl; rewrite Hws |].
    intros v Hv. rewrite stored_setFlag_ne by done.
    unfold stored_todos. by rewrite Hus.
Qed.

Lemma unchanged_one_write w w' :
  game_users w' = game_users w → flag_writes w' = flag_writes w →
  one_write_at_most w w'.
Proof. intros Hus Hws. split; [by rewrite Hus | by left]. Qed.

Lemma merge_lookup_notin p : ∀ c k,
  (∀ e, e ∈ p → deletion_key e.1 = None) → k ∉ p.*1 →
  fold_left merge_entry p c !! k = c !! k.
Proof.
  induction p as [|e p IH]; intros c k Hkeys Hk; simpl; [done|].
  rewrite IH.
  - unfold merge_entry. rewrite (Hkeys e) by by left.
    apply lookup_insert_ne. intros Heq. apply Hk. csimpl. rewrite Heq.
    by left.
  - intros e' He'. apply Hkeys. by right.
  - intros Hin. apply Hk. csimpl. by right.
Qed.

Lemma merge_lookup_in p : ∀ c k x,
  (∀ e, e ∈ p → deletion_key e.1 = None) → NoDup p.*1 → (k, x) ∈ p →
  fold_left merge_entry p c !! k = Some x.
Proof.
  induction p as [|e p IH]; intros c k x Hkeys Hnd Hin; simpl.
  { by apply elem_of_nil in Hin. }
  csimpl in Hnd. apply NoDup_cons in Hnd as [Hfresh Hnd].
  apply elem_of_cons in Hin as [<-|Hin].
  - rewrite merge_lookup_notin; [| intros e' He'; apply Hkeys; by right | done].
    pose proof (Hkeys (k, x) ltac:(by left)) as Hk. simpl in Hk.
    unfold merge_entry. simpl. rewrite Hk. apply lookup_insert_eq.
  - apply IH; [intros e' He'; apply Hkeys; by right | done | done].
Qed.

End further.

(** X1: [updateUserToDos] passes its argument through to the flag of the
    user it is given. For an unknown user it returns [undefined] and leaves
    the world as it was, drawing no token. For a known user it issues the one
    write of [updateData]; when the keys of [updateData] are distinct and
    none carries the deletion sentinel, each of them then holds the value
    that was submitted, every other key of the collection holds what it
    held, and every other user's flag is untouched. *)
Theorem updateUserToDos_bulk
    (w : World) (userId : string) (updateData : payload) :
  (find_user (game_users w) userId = None →
   updateUserToDos userId updateData w = (Normal RetUndefined, w)) ∧
  (is_Some (find_user (game_users w) userId) →
   ∃ w',
     updateUserToDos userId updateData w = (Normal RetPromise, w') ∧
     flag_writes w' = flag_writes w ++ [(userId, updateData)] ∧
     (∀ v, v ≠ userId → stored_todos w' v = stored_todos w v) ∧
     ((∀ e, e ∈ updateData → deletion_key e.1 = None) →
      NoDup updateData.*1 →
      (∀ k x, (k, x) ∈ updateData →
              stored_todos w' userId ≫= (.!! k) = Some x) ∧
      (∀ k, k ∉ updateData.*1 →
            stored_todos w' userId ≫= (.!! k)
            = stored_todos w userId ≫= (.!! k)))).
Proof.
  split.
  - intros Hu. by rewrite updateUserToDos_cases, Hu.
  - intros [usr Hu]. exists (setFlag userId updateData w).2.
    rewrite updateUserToDos_cases, Hu.
    split_and!; [done | done | |].
    + intros v Hv. by apply stored_setFlag_ne.
    + intros Hkeys Hnd. rewrite (stored_setFlag_eq _ _ _ _ Hu). simpl.
      unfold merge_on_write. split.
      * intros k x Hin. by apply merge_lookup_in.
      * intros k Hk. rewrite merge_lookup_notin by done.
        destruct (stored_todos w userId); simpl; [done | apply lookup_empty].
Qed.

(** X2: on an id the aggregation maps to a record whose [userId] names a
    known user, [updateToDo] and [deleteToDo] are [updateUserToDos] for that
    user with a single-entry argument: [{toDoId: updateData}] and
    [{"-=" + toDoId: null}]. *)
Theorem update_delete_as_updateUserToDos
    (w : World) (agg : ToDos) (toDoId : string) (r : ToDo) (u : string)
    (usr : User) (updateData : jsval) :
  (allToDos w).1 = Normal agg →
  agg !! toDoId = Some (JObj r) →
  r !! "userId" = Some (VString u) →
  find_user (game_users w) u = Some usr →
  updateToDo toDoId updateData w
    = updateUserToDos u [(toDoId, updateData)] w ∧
  deleteToDo toDoId w = updateUserToDos u [("-=" +:+ toDoId, JNull)] w.
Proof.
  intros Hagg Hr Hfield Hu.
  rewrite (updateToDo_present _ _ _ _ _ Hagg Hr).
  rewrite (deleteToDo_present _ _ _ _ Hagg Hr).
  rewrite (owner_of_known _ _ _ _ Hfield Hu).
  by rewrite !updateUserToDos_cases, Hu.
Qed.

(** X3: no method of the class adds, removes or reorders users, and each
    call of [createToDo], [updateToDo], [updateUserToDos] or [deleteToDo]
    issues at most one flag write, always on the document of a known user
    and never changing another user's flag. *)
Theorem writers_issue_one_write_at_most
    (w : World) (userId toDoId : string) (toDoData : ToDo)
    (updateData : jsval) (bulk : payload) :
  one_write_at_most w (createToDo userId toDoData w).2 ∧
  one_write_at_most w (updateToDo toDoId updateData w).2 ∧
  one_write_at_most w (updateUserToDos userId bulk w).2 ∧
  one_write_at_most w (deleteToDo toDoId w).2.
Proof.
  split_and!.
  - destruct (find_user (game_users w) userId) as [usr|] eqn:Hu.
    + rewrite (createToDo_known _ _ _ _ Hu).
      by apply setFlag_one_write.
    + rewrite (createToDo_unknown_run _ _ _ Hu).
      by apply unchanged_one_write.
  - destruct (updateToDo_cases w toDoId updateData) as [->|(u & Hu & ->)].
    + by apply unchanged_one_write.
    + by apply setFlag_one_write.
  - rewrite updateUserToDos_cases.
    destruct (find_user (game_users w) userId) as [usr|] eqn:Hu.
    + apply setFlag_one_write; [by rewrite Hu | done..].
    + by apply unchanged_one_write.
  - destruct (deleteToDo_cases w toDoId) as [->|(u & Hu & ->)].
    + by apply unchanged_one_write.
    + by apply setFlag_one_write.
Qed.

Section aggregation.
Implicit Types (w : World) (u v k id : string) (d x : jsval).

Lemma setFlag_ids w u (p : payload) :
  user_id <$> game_users (setFlag u p w).2 = user_id <$> game_users w.
Proof. simpl. apply (put_todos_ids (λ i, i)). Qed.

Lemma setFlag_known w u usr (p : payload) :
  find_user (game_users w) u = Some usr →
  find_user (game_users (setFlag u p w).2) u
  = Some (mkUser u (Some (merge_on_write (stored_todos w u) p))).
Proof. intros Hu. simpl. by apply (find_user_put_eq _ _ usr). Qed.

Lemma visited_by_id w :
  visited w = stored_todos w <$> (user_id <$> game_users w).
Proof. unfold visited. by rewrite <- list_fmap_compose. Qed.

Lemma stored_is_visited w v (c : ToDos) :
  stored_todos w v = Some c → Some c ∈ visited w.
Proof.
  intros Hc. unfold stored_todos in Hc.
  destruct (find_user (game_users w) v) as [usr|] eqn:Hv; [|done].
  rewrite visited_by_id. apply list_elem_of_fmap. exists v. split.
  - unfold stored_todos. by rewrite Hv.
  - apply list_elem_of_fmap. exists usr.
    split; [by rewrite (find_user_id _ _ _ Hv) | by eapply find_user_elem].
Qed.

Lemma visited_is_stored w (c : ToDos) :
  Some c ∈ visited w → ∃ v, stored_todos w v = Some c.
Proof.
  unfold visited. intros (usr & Hc & _)%list_elem_of_fmap. eauto.
Qed.

Lemma last_entry_visited_ext w w' k :
  user_id <$> game_users w' = user_id <$> game_users w →
  (∀ v, stored_todos w' v ≫= (.!! k) = stored_todos w v ≫= (.!! k)) →
  last_entry (visited w') k = last_entry (visited w) k.
Proof.
  intros Hids Hst. rewrite !visited_by_id, Hids.
  apply last_entry_fmap_ext. intros v _. apply Hst.
Qed.

Lemma last_entry_visited_None w k :
  last_entry (visited w) k = None ↔
  ∀ v, stored_todos w v ≫= (.!! k) = None.
Proof.
  rewrite last_entry_None. split.
  - intros Hall v. destruct (stored_todos w v) as [c|] eqn:Hc; [|done].
    simpl. apply Hall. by eapply stored_is_visited.
  - intros Hall c [v Hv]%visited_is_stored.
    specialize (Hall v). by rewrite Hv in Hall.
Qed.

Lemma last_entry_visited_only w u k x :
  is_Some (find_user (game_users w) u) →
  stored_todos w u ≫= (.!! k) = Some x →
  (∀ v, v ≠ u → stored_todos w v ≫= (.!! k) = None) →
  last_entry (visited w) k = Some x.
Proof.
  intros Hu Hx Hothers.
  destruct (last_entry (visited w) k) as [y|] eqn:Hl.
  - apply last_entry_held in Hl as (c & [v Hv]%visited_is_stored & Hy).
    destruct (decide (v = u)) as [->|Hne].
    + rewrite Hv in Hx. simpl in Hx. congruence.
    + specialize (Hothers v Hne). rewrite Hv in Hothers. simpl in Hothers.
      congruence.
  - rewrite last_entry_visited_None in Hl. specialize (Hl u). congruence.
Qed.

Lemma allToDos_eq w (m : ToDos) :
  (∀ k, last_entry (visited w) k = m !! k) → allToDos w = (Normal m, w).
Proof.
  intros Hm. rewrite allToDos_run. f_equal. f_equal. apply map_eq. intros k.
  rewrite <- Hm. apply allToDos_lookup. by rewrite allToDos_run.
Qed.

Lemma allToDos_total w : ∃ agg, (allToDos w).1 = Normal agg.
Proof. rewrite allToDos_run. by eexists. Qed.

Lemma stored_after_set w u usr id d :
  find_user (game_users w) u = Some usr → deletion_key id = None →
  stored_todos (setFlag u [(id, d)] w).2 u
  = Some (<[id := d]> (default ∅ (stored_todos w u))).
Proof.
  intros Hu Hkey. rewrite (stored_setFlag_eq _ _ _ _ Hu). f_equal.
  unfold merge_on_write, merge_entry. simpl. by rewrite Hkey.
Qed.

Lemma stored_after_remove w u usr id x :
  find_user (game_users w) u = Some usr →
  stored_todos (setFlag u [("-=" +:+ id, x)] w).2 u
  = Some (delete id (default ∅ (stored_todos w u))).
Proof. intros Hu. by rewrite (stored_setFlag_eq _ _ _ _ Hu). Qed.

(** The aggregation once [toDoId] was set in the only collection allowed to
    hold it. *)
Lemma aggregated_after_set w agg u usr id d :
  find_user (game_users w) u = Some usr → deletion_key id = None →
  held_only_by w id u → (allToDos w).1 = Normal agg →
  allToDos (setFlag u [(id, d)] w).2
  = (Normal (<[id := d]> agg), (setFlag u [(id, d)] w).2).
Proof.
  intros Hu Hkey Honly Hagg. apply allToDos_eq. intros k.
  rewrite lookup_insert. case_decide as Hk.
  - subst k. apply (last_entry_visited_only _ u).
    + by rewrite (setFlag_known _ _ _ _ Hu).
    + rewrite (stored_after_set _ _ _ _ _ Hu Hkey). simpl.
      apply lookup_insert_eq.
    + intros v Hv. rewrite stored_setFlag_ne by done.
      by apply (held_only_by_other _ _ u).
  - rewrite (allToDos_lookup _ _ _ Hagg).
    apply last_entry_visited_ext; [apply setFlag_ids|].
    intros v. destruct (decide (v = u)) as [->|Hne].
    + rewrite (stored_after_set _ _ _ _ _ Hu Hkey). simpl.
      rewrite lookup_insert_ne by done.
      destruct (stored_todos w u); simpl; [done | apply lookup_empty].
    + by rewrite stored_setFlag_ne.
Qed.

(** The aggregation once [toDoId] was removed from the only collection
    allowed to hold it. *)
Lemma aggregated_after_remove w agg u usr id x :
  find_user (game_users w) u = Some usr →
  held_only_by w id u → (allToDos w).1 = Normal agg →
  allToDos (setFlag u [("-=" +:+ id, x)] w).2
  = (Normal (delete id agg), (setFlag u [("-=" +:+ id, x)] w).2).
Proof.
  intros Hu Honly Hagg. apply allToDos_eq. intros k.
  rewrite lookup_delete. case_decide as Hk.
  - subst k. apply last_entry_visited_None. intros v.
    destruct (decide (v = u)) as [->|Hne].
    + rewrite (stored_after_remove _ _ _ _ _ Hu). simpl.
      apply lookup_delete_eq.
    + rewrite stored_setFlag_ne by done.
      by apply (held_only_by_other _ _ u).
  - rewrite (allToDos_lookup _ _ _ Hagg).
    apply last_entry_visited_ext; [apply setFlag_ids|].
    intros v. destruct (decide (v = u)) as [->|Hne].
    + rewrite (stored_after_remove _ _ _ _ _ Hu). simpl.
      rewrite lookup_delete_ne by done.
      destruct (stored_todos w u); simpl; [done | apply lookup_empty].
    + by rewrite stored_setFlag_ne.
Qed.

Lemma held_only_by_fresh w agg id u :
  (allToDos w).1 = Normal agg → agg !! id = None → held_only_by w id u.
Proof.
  intros Hagg Hid. rewrite (allToDos_lookup _ _ _ Hagg) in Hid.
  rewrite last_entry_visited_None in Hid.
  unfold held_only_by. apply Forall_forall. intros usr _. right. apply Hid.
Qed.

End aggregation.

Section compositions.
Implicit Types (w : World) (u v k id : string) (d x : jsval).

Lemma allToDos_drawn w : (allToDos (drawn w)).1 = (allToDos w).1.
Proof. by rewrite !allToDos_run. Qed.

Lemma entry_held_by_owner w agg id x u :
  (allToDos w).1 = Normal agg → agg !! id = Some x → held_only_by w id u →
  stored_todos w u ≫= (.!! id) = Some x.
Proof.
  intros Hagg Hx Honly. rewrite (allToDos_lookup _ _ _ Hagg) in Hx.
  apply last_entry_held in Hx as (c & [v Hv]%visited_is_stored & Hc).
  destruct (decide (v = u)) as [->|Hne]; [by rewrite Hv|].
  pose proof (held_only_by_other _ _ _ _ Honly Hne) as Hnone.
  rewrite Hv in Hnone. simpl in Hnone. congruence.
Qed.

End compositions.

(** X4: [createToDo] for a known user adds exactly one entry. When the token
    drawn carries no deletion sentinel and no other user's collection holds
    it, the aggregation afterwards is the one before with the new record
    under the token; the user's other keys and the other users' flags are
    as they were. *)
Theorem createToDo_extends_aggregation
    (w : World) (agg : ToDos) (userId : string) (usr : User)
    (toDoData : ToDo) :
  find_user (game_users w) userId = Some usr →
  (allToDos w).1 = Normal agg →
  deletion_key (entropy w (draws w)) = None →
  held_only_by w (entropy w (draws w)) userId →
  let token := entropy w (draws w) in
  ∃ w',
    createToDo userId toDoData w = (Normal RetPromise, w') ∧
    allToDos w'
      = (Normal (<[token := JObj (newToDo toDoData token userId)]> agg), w') ∧
    (∀ v, v ≠ userId → stored_todos w' v = stored_todos w v) ∧
    (∀ k, k ≠ token →
          stored_todos w' userId ≫= (.!! k)
          = stored_todos w userId ≫= (.!! k)).
Proof.
  intros Hu Hagg Hkey Honly token.
  set (p := [(token, JObj (newToDo toDoData token userId))]).
  exists (setFlag userId p (drawn w)).2.
  rewrite (createToDo_known _ _ _ _ Hu). fold token p.
  split_and!; [done | | |].
  - apply (aggregated_after_set (drawn w) agg userId usr); try done.
    by rewrite allToDos_drawn.
  - intros v Hv. by rewrite stored_setFlag_ne.
  - intros k Hk. unfold p.
    rewrite (stored_after_set (drawn w) _ usr) by done. simpl.
    rewrite lookup_insert_ne by done.
    change (stored_todos (drawn w) userId) with (stored_todos w userId).
    destruct (stored_todos w userId); simpl; [done | apply lookup_empty].
Qed.

(** X5: creating a todo and deleting it again is a round trip. For a known
    user and a token that carries no sentinel and is in no collection yet,
    [createToDo] followed by [deleteToDo] of the new id leaves every key of
    every user's collection, and the aggregation, as they were before the
    two calls; the two writes issued are the creation and the deletion. *)
Theorem create_then_delete_round_trip
    (w : World) (agg : ToDos) (userId : string) (usr : User)
    (toDoData : ToDo) :
  find_user (game_users w) userId = Some usr →
  (allToDos w).1 = Normal agg →
  deletion_key (entropy w (draws w)) = None →
  agg !! entropy w (draws w) = None →
  let token := entropy w (draws w) in
  ∃ w1 w2,
    createToDo userId toDoData w = (Normal RetPromise, w1) ∧
    deleteToDo token w1 = (Normal RetPromise, w2) ∧
    allToDos w2 = (Normal agg, w2) ∧
    (∀ v k, stored_todos w2 v ≫= (.!! k) = stored_todos w v ≫= (.!! k)) ∧
    flag_writes w2
      = flag_writes w
        ++ [(userId, [(token, JObj (newToDo toDoData token userId))]);
            (userId, [("-=" +:+ token, JNull)])].
Proof.
  intros Hu Hagg Hkey Hfresh token.
  set (rec := newToDo toDoData token userId).
  set (w1 := (setFlag userId [(token, JObj rec)] (drawn w)).2).
  set (w2 := (setFlag userId [("-=" +:+ token, JNull)] w1).2).
  pose proof (held_only_by_fresh w agg token userId Hagg Hfresh) as Honly.
  assert (allToDos w1 = (Normal (<[token := JObj rec]> agg), w1)) as Hagg1.
  { apply (aggregated_after_set (drawn w) agg userId usr); try done.
    by rewrite allToDos_drawn. }
  assert (find_user (game_users w1) userId
          = Some (mkUser userId
                    (Some (merge_on_write (stored_todos (drawn w) userId)
                             [(token, JObj rec)])))) as Hu1.
  { by apply (setFlag_known (drawn w) _ usr). }
  assert (stored_todos w1 userId
          = Some (<[token := JObj rec]> (default ∅ (stored_todos w userId))))
    as Hst1.
  { by apply (stored_after_set (drawn w) _ usr). }
  assert (stored_todos w userId ≫= (.!! token) = None) as Hnone.
  { rewrite (allToDos_lookup _ _ _ Hagg) in Hfresh.
    by rewrite last_entry_visited_None in Hfresh. }
  assert (∀ v k, stored_todos w2 v ≫= (.!! k) = stored_todos w v ≫= (.!! k))
    as Hback.
  { intros v k. destruct (decide (v = userId)) as [->|Hne].
    - unfold w2. rewrite (stored_after_remove _ _ _ _ _ Hu1), Hst1. simpl.
      rewrite delete_insert_eq.
      destruct (decide (k = token)) as [->|Hk].
      + rewrite lookup_delete_eq. by rewrite Hnone.
      + rewrite lookup_delete_ne by done.
        destruct (stored_todos w userId); simpl; [done | apply lookup_empty].
    - unfold w2, w1. by rewrite !stored_setFlag_ne. }
  exists w1, w2. split_and!.
  - by rewrite (createToDo_known _ _ _ _ Hu).
  - rewrite (deleteToDo_present w1 (<[token := JObj rec]> agg) token rec).
    + rewrite (owner_of_known w1 rec userId _ (newToDo_userId _ _ _) Hu1).
      done.
    + by rewrite Hagg1.
    + apply lookup_insert_eq.
  - apply allToDos_eq. intros k. rewrite (allToDos_lookup _ _ _ Hagg).
    apply last_entry_visited_ext; [|intros v; apply Hback].
    unfold w2, w1. by rewrite !setFlag_ids.
  - done.
  - unfold w2, w1. simpl. by rewrite <- app_assoc.
Qed.

(** X6: a delete cannot be repeated. After [deleteToDo] removed an id from
    the only collection that held it, the id (when it is not a name every
    object inherits) is unknown to the aggregation, so a second
    [deleteToDo], and any [updateToDo], of that id throws a [TypeError] and
    writes nothing. *)
Theorem deleteToDo_twice_throws
    (w : World) (agg : ToDos) (toDoId : string) (r : ToDo) (u : string)
    (usr : User) (updateData : jsval) :
  (allToDos w).1 = Normal agg →
  agg !! toDoId = Some (JObj r) →
  r !! "userId" = Some (VString u) →
  find_user (game_users w) u = Some usr →
  held_only_by w toDoId u →
  toDoId ∉ object_prototype →
  ∃ w',
    deleteToDo toDoId w = (Normal RetPromise, w') ∧
    deleteToDo toDoId w' = (Thrown TypeError, w') ∧
    updateToDo toDoId updateData w' = (Thrown TypeError, w').
Proof.
  intros Hagg Hr Hfield Hu Honly Hproto.
  set (w' := (setFlag u [("-=" +:+ toDoId, JNull)] w).2).
  pose proof (aggregated_after_remove w agg u usr toDoId JNull Hu Honly Hagg)
    as Hagg'. fold w' in Hagg'.
  assert ((allToDos w').1 = Normal (delete toDoId agg)) as Hagg1
    by by rewrite Hagg'.
  exists w'. split_and!.
  - rewrite (deleteToDo_present _ _ _ _ Hagg Hr).
    by rewrite (owner_of_known _ _ _ _ Hfield Hu).
  - rewrite (deleteToDo_absent _ _ _ Hagg1 (lookup_delete_eq _ _)).
    by rewrite bool_decide_eq_false_2.
  - rewrite (updateToDo_absent _ _ _ _ Hagg1 (lookup_delete_eq _ _)).
    by rewrite bool_decide_eq_false_2.
Qed.

Section replacements.
Implicit Types (w : World) (us : list User) (u v k id : string).
Implicit Types (d x : jsval) (o : ToDo).

Lemma owner_of_setFlag w u (p : payload) o :
  owner_of (setFlag u p w).2 o = owner_of w o.
Proof.
  unfold owner_of. destruct (o !! "userId") as [[| |b|v]|]; try done.
  simpl. apply find_user_put_known.
Qed.

Lemma put_todos_twice us u (oc1 oc2 : option ToDos) :
  put_todos (put_todos us u oc1) u oc2 = put_todos us u oc2.
Proof.
  induction us as [|y us IH]; simpl; [done|].
  destruct (decide (user_id y = u)) as [Hy|Hy]; simpl.
  - by rewrite decide_True.
  - by rewrite decide_False, IH.
Qed.

Lemma Forall_put_todos_id (P : string → option ToDos → Prop) us u
    (oc : option ToDos) :
  Forall (λ y, P (user_id y) (user_todos y)) us → P u oc →
  Forall (λ y, P (user_id y) (user_todos y)) (put_todos us u oc).
Proof.
  intros Hus Hoc. induction Hus as [|y us Hy Hus IH]; simpl; [done|].
  destruct (decide (user_id y = u)) as [Heq|Hne].
  - constructor; [simpl; by rewrite Heq | done].
  - by constructor.
Qed.

Lemma names_holder_stored w u :
  owned_by_holder w → names_holder u (stored_todos w u).
Proof.
  unfold owned_by_holder, stored_todos. rewrite Forall_forall. intros Hw.
  destruct (find_user (game_users w) u) as [usr|] eqn:Hu; [|done].
  simpl. rewrite <- (find_user_id _ _ _ Hu).
  apply Hw. by eapply find_user_elem.
Qed.

Lemma names_holder_merge u (oc : option ToDos) (p : payload) :
  names_holder u oc →
  (∀ k o, (k, JObj o) ∈ p → o !! "userId" = Some (VString u)) →
  names_holder u (Some (merge_on_write oc p)).
Proof.
  unfold merge_on_write. intros Hoc.
  assert (names_holder u (Some (default ∅ oc))) as Hc.
  { destruct oc; simpl; [done | apply map_Forall_empty]. }
  clear Hoc. revert Hc. generalize (default ∅ oc).
  induction p as [|[k x] p IH]; intros c Hc Hp; simpl; [done|].
  apply IH.
  - simpl in *. unfold merge_entry. simpl.
    destruct (deletion_key k).
    + by apply map_Forall_delete.
    + apply map_Forall_insert_2; [|done].
      destruct x as [|o]; [done|]. apply (Hp k). by left.
  - intros k' o Hin. apply (Hp k'). by right.
Qed.

Lemma owned_by_holder_setFlag w w0 u (p : payload) :
  owned_by_holder w → game_users w0 = game_users w →
  (∀ k o, (k, JObj o) ∈ p → o !! "userId" = Some (VString u)) →
  owned_by_holder (setFlag u p w0).2.
Proof.
  intros Hw Hus Hp. unfold owned_by_holder. simpl. rewrite Hus.
  apply (Forall_put_todos_id names_holder); [done|].
  apply names_holder_merge; [|done].
  replace (stored_todos w0 u) with (stored_todos w u)
    by (unfold stored_todos; by rewrite Hus).
  by apply names_holder_stored.
Qed.

End replacements.

(** X7: a replacement that names no known user strands the record. After
    [updateToDo] put, in place of a record held by its owner alone, an
    object whose [userId] is missing or names nobody, the object sits in the
    owner's collection and every later [updateToDo] or [deleteToDo] of that
    id returns [undefined] without writing. *)
Theorem updateToDo_can_strand_record
    (w : World) (agg : ToDos) (toDoId : string) (r : ToDo) (u : string)
    (usr : User) (replacement : ToDo) :
  sentinel_free w →
  (allToDos w).1 = Normal agg →
  agg !! toDoId = Some (JObj r) →
  r !! "userId" = Some (VString u) →
  find_user (game_users w) u = Some usr →
  held_only_by w toDoId u →
  owner_of w replacement = None →
  ∃ w',
    updateToDo toDoId (JObj replacement) w = (Normal RetPromise, w') ∧
    stored_todos w' u ≫= (.!! toDoId) = Some (JObj replacement) ∧
    (∀ updateData,
       updateToDo toDoId updateData w' = (Normal RetUndefined, w')) ∧
    deleteToDo toDoId w' = (Normal RetUndefined, w').
Proof.
  intros Hfree Hagg Hr Hfield Hu Honly Hnobody.
  assert (deletion_key toDoId = None) as Hkey.
  { eapply aggregated_sentinel_free; [done..|]. by rewrite Hr. }
  set (w' := (setFlag u [(toDoId, JObj replacement)] w).2).
  pose proof (aggregated_after_set w agg u usr toDoId (JObj replacement)
                Hu Hkey Honly Hagg) as Hagg'. fold w' in Hagg'.
  assert ((allToDos w').1 = Normal (<[toDoId := JObj replacement]> agg))
    as Hagg1 by by rewrite Hagg'.
  assert (owner_of w' replacement = None) as Hnobody'
    by by (unfold w'; rewrite owner_of_setFlag).
  exists w'. split_and!.
  - rewrite (updateToDo_present _ _ _ _ _ Hagg Hr).
    by rewrite (owner_of_known _ _ _ _ Hfield Hu).
  - unfold w'. rewrite (stored_after_set _ _ _ _ _ Hu Hkey). simpl.
    apply lookup_insert_eq.
  - intros updateData.
    rewrite (updateToDo_present _ _ _ _ _ Hagg1 (lookup_insert_eq _ _ _)).
    by rewrite Hnobody'.
  - rewrite (deleteToDo_present _ _ _ _ Hagg1 (lookup_insert_eq _ _ _)).
    by rewrite Hnobody'.
Qed.

(** X8: updates do not accumulate. Updating a record held by its owner
    alone with an object that still names the owner, and then updating the
    same id again, leaves the users exactly as the second update alone
    would: nothing of the first replacement survives. *)
Theorem updateToDo_last_wins
    (w : World) (agg : ToDos) (toDoId : string) (r : ToDo) (u : string)
    (usr : User) (first : ToDo) (second : jsval) :
  sentinel_free w →
  (allToDos w).1 = Normal agg →
  agg !! toDoId = Some (JObj r) →
  r !! "userId" = Some (VString u) →
  find_user (game_users w) u = Some usr →
  held_only_by w toDoId u →
  first !! "userId" = Some (VString u) →
  ∃ w1 w2 w2',
    updateToDo toDoId (JObj first) w = (Normal RetPromise, w1) ∧
    updateToDo toDoId second w1 = (Normal RetPromise, w2) ∧
    updateToDo toDoId second w = (Normal RetPromise, w2') ∧
    game_users w2 = game_users w2' ∧
    stored_todos w2 u ≫= (.!! toDoId) = Some second.
Proof.
  intros Hfree Hagg Hr Hfield Hu Honly Hfirst.
  assert (deletion_key toDoId = None) as Hkey.
  { eapply aggregated_sentinel_free; [done..|]. by rewrite Hr. }
  set (w1 := (setFlag u [(toDoId, JObj first)] w).2).
  pose proof (aggregated_after_set w agg u usr toDoId (JObj first)
                Hu Hkey Honly Hagg) as Hagg'. fold w1 in Hagg'.
  assert ((allToDos w1).1 = Normal (<[toDoId := JObj first]> agg))
    as Hagg1 by by rewrite Hagg'.
  pose proof (setFlag_known w u usr [(toDoId, JObj first)] Hu) as Hu1.
  fold w1 in Hu1.
  exists w1, (setFlag u [(toDoId, second)] w1).2,
         (setFlag u [(toDoId, second)] w).2.
  split_and!.
  - rewrite (updateToDo_present _ _ _ _ _ Hagg Hr).
    by rewrite (owner_of_known _ _ _ _ Hfield Hu).
  - rewrite (updateToDo_present _ _ _ _ _ Hagg1 (lookup_insert_eq _ _ _)).
    by rewrite (owner_of_known _ _ _ _ Hfirst Hu1).
  - rewrite (updateToDo_present _ _ _ _ _ Hagg Hr).
    by rewrite (owner_of_known _ _ _ _ Hfield Hu).
  - simpl. rewrite put_todos_twice. do 2 f_equal.
    fold (stored_todos w1 u). unfold w1.
    rewrite (stored_after_set _ _ _ _ _ Hu Hkey).
    unfold merge_on_write, merge_entry. simpl. rewrite Hkey.
    by rewrite insert_insert_eq.
  - rewrite (stored_after_set _ _ _ _ _ Hu1 Hkey). simpl.
    apply lookup_insert_eq.
Qed.

(** X9: [null] as [updateData] makes the id unusable. After [updateToDo]
    wrote [null] over a record held by its owner alone, the aggregation maps
    the id to [null], and every later [updateToDo] or [deleteToDo] of it
    throws a [TypeError] without writing. *)
Theorem updateToDo_null_then_throws
    (w : World) (agg : ToDos) (toDoId : string) (r : ToDo) (u : string)
    (usr : User) :
  sentinel_free w →
  (allToDos w).1 = Normal agg →
  agg !! toDoId = Some (JObj r) →
  r !! "userId" = Some (VString u) →
  find_user (game_users w) u = Some usr →
  held_only_by w toDoId u →
  ∃ w',
    updateToDo toDoId JNull w = (Normal RetPromise, w') ∧
    allToDos w' = (Normal (<[toDoId := JNull]> agg), w') ∧
    (∀ updateData,
       updateToDo toDoId updateData w' = (Thrown TypeError, w')) ∧
    deleteToDo toDoId w' = (Thrown TypeError, w').
Proof.
  intros Hfree Hagg Hr Hfield Hu Honly.
  assert (deletion_key toDoId = None) as Hkey.
  { eapply aggregated_sentinel_free; [done..|]. by rewrite Hr. }
  set (w' := (setFlag u [(toDoId, JNull)] w).2).
  pose proof (aggregated_after_set w agg u usr toDoId JNull
                Hu Hkey Honly Hagg) as Hagg'. fold w' in Hagg'.
  assert ((allToDos w').1 = Normal (<[toDoId := JNull]> agg))
    as Hagg1 by by rewrite Hagg'.
  exists w'. split_and!.
  - rewrite (updateToDo_present _ _ _ _ _ Hagg Hr).
    by rewrite (owner_of_known _ _ _ _ Hfield Hu).
  - done.
  - intros updateData.
    by rewrite (updateToDo_null _ _ _ _ Hagg1 (lookup_insert_eq _ _ _)).
  - by rewrite (deleteToDo_null _ _ _ Hagg1 (lookup_insert_eq _ _ _)).
Qed.

(** X10: [updateToDo] stores [updateData] without checking its [id]. In a
    store where every record sits under the key its [id] spells, that is
    still so after the update exactly when [updateData], if it is a
    record, carries [toDoId] as its [id]. *)
Theorem updateToDo_keeps_keys_iff_id_matches
    (w : World) (agg : ToDos) (toDoId : string) (r : ToDo) (u : string)
    (usr : User) (updateData : jsval) :
  sentinel_free w →
  keyed_by_id w →
  (allToDos w).1 = Normal agg →
  agg !! toDoId = Some (JObj r) →
  r !! "userId" = Some (VString u) →
  find_user (game_users w) u = Some usr →
  ∃ w',
    updateToDo toDoId updateData w = (Normal RetPromise, w') ∧
    (keyed_by_id w' ↔
     ∀ o, updateData = JObj o → o !! "id" = Some (VString toDoId)).
Proof.
  intros Hfree Hkeyed Hagg Hr Hfield Hu.
  assert (deletion_key toDoId = None) as Hkey.
  { eapply aggregated_sentinel_free; [done..|]. by rewrite Hr. }
  set (p := [(toDoId, updateData)]).
  exists (setFlag u p w).2. split.
  { rewrite (updateToDo_present _ _ _ _ _ Hagg Hr).
    by rewrite (owner_of_known _ _ _ _ Hfield Hu). }
  assert (merge_on_write (stored_todos w u) p
          = <[toDoId := updateData]> (default ∅ (stored_todos w u))) as Hm.
  { unfold p, merge_on_write, merge_entry. simpl. by rewrite Hkey. }
  split.
  - intros Hkeyed'. unfold keyed_by_id in Hkeyed'.
    rewrite Forall_forall in Hkeyed'.
    pose proof (setFlag_known w u usr p Hu) as Hu'.
    apply find_user_elem in Hu'. specialize (Hkeyed' _ Hu'). simpl in Hkeyed'.
    rewrite Hm in Hkeyed'. apply (Hkeyed' toDoId). apply lookup_insert_eq.
  - intros Hid. unfold keyed_by_id. simpl.
    apply (Forall_put_todos
             (λ oc, match oc with
                    | Some c =>
                        map_Forall (λ k x, ∀ o, x = JObj o →
                                     o !! "id" = Some (VString k)) c
                    | None => True
                    end)); [done|].
    rewrite Hm. apply map_Forall_insert_2; [done|].
    unfold stored_todos. rewrite Hu. simpl.
    apply find_user_elem in Hu. unfold keyed_by_id in Hkeyed.
    rewrite Forall_forall in Hkeyed. specialize (Hkeyed usr Hu).
    destruct (user_todos usr); simpl; [done | apply map_Forall_empty].
Qed.

(** X11: [createToDo] and [deleteToDo] keep every record in the collection
    of the user it names: a store in which each record's [userId] is the
    user holding it is still such a store after either call, whatever the
    arguments. *)
Theorem create_delete_keep_ownership
    (w : World) (userId toDoId : string) (toDoData : ToDo) :
  owned_by_holder w →
  owned_by_holder (createToDo userId toDoData w).2 ∧
  owned_by_holder (deleteToDo toDoId w).2.
Proof.
  intros Hw. split.
  - destruct (find_user (game_users w) userId) as [usr|] eqn:Hu.
    + rewrite (createToDo_known _ _ _ _ Hu).
      apply (owned_by_holder_setFlag w); [done..|].
      intros k o [Heq|Hin]%elem_of_cons; [|by apply elem_of_nil in Hin].
      injection Heq as _ ->. apply newToDo_userId.
    + by rewrite (createToDo_unknown_run _ _ _ Hu).
  - destruct (deleteToDo_cases w toDoId) as [->|(u & _ & ->)]; [done|].
    apply (owned_by_holder_setFlag w); [done..|].
    intros k o [Heq|Hin]%elem_of_cons; [done | by apply elem_of_nil in Hin].
Qed.

(** X12: where every record names the user holding it, [updateToDo] and
    [deleteToDo] never drop a call on a known record: the write is issued,
    and it is issued on a user whose collection holds that very record. *)
Theorem owned_record_is_written_at_its_holder
    (w : World) (agg : ToDos) (toDoId : string) (r : ToDo)
    (updateData : jsval) :
  owned_by_holder w →
  (allToDos w).1 = Normal agg →
  agg !! toDoId = Some (JObj r) →
  ∃ u c,
    stored_todos w u = Some c ∧
    c !! toDoId = Some (JObj r) ∧
    updateToDo toDoId updateData w = setFlag u [(toDoId, updateData)] w ∧
    deleteToDo toDoId w = setFlag u [("-=" +:+ toDoId, JNull)] w.
Proof.
  intros Hw Hagg Hr. pose proof Hr as Hr'.
  rewrite (allToDos_lookup _ _ _ Hagg) in Hr'.
  apply last_entry_held in Hr' as (c & [u Hc]%visited_is_stored & Hk).
  pose proof (names_holder_stored w u Hw) as Hnames.
  rewrite Hc in Hnames. simpl in Hnames.
  specialize (Hnames toDoId (JObj r) Hk). simpl in Hnames.
  assert (∃ usr, find_user (game_users w) u = Some usr) as [usr Hu].
  { unfold stored_todos in Hc.
    destruct (find_user (game_users w) u); [by eexists | done]. }
  exists u, c. split_and!; [done | done | |].
  - rewrite (updateToDo_present _ _ _ _ _ Hagg Hr).
    by rewrite (owner_of_known _ _ _ _ Hnames Hu).
  - rewrite (deleteToDo_present _ _ _ _ Hagg Hr).
    by rewrite (owner_of_known _ _ _ _ Hnames Hu).
Qed.

(** X13: the aggregation is the empty object exactly when no user has a
    todo: [allToDos] returns [{}] if and only if every stored collection is
    empty (users whose flag is unset, and an empty user list, included). *)
Theorem allToDos_empty_iff (w : World) :
  allToDos w = (Normal ∅, w) ↔
  ∀ uid c, stored_todos w uid = Some c → c = ∅.
Proof.
  split.
  - intros Hall uid c Hc. apply map_empty. intros k.
    assert ((allToDos w).1 = Normal ∅) as Hagg by by rewrite Hall.
    pose proof (allToDos_lookup w ∅ k Hagg) as Hk.
    rewrite lookup_empty in Hk. symmetry in Hk.
    rewrite last_entry_visited_None in Hk. specialize (Hk uid).
    by rewrite Hc in Hk.
  - intros Hempty. apply allToDos_eq. intros k. rewrite lookup_empty.
    apply last_entry_visited_None. intros v.
    destruct (stored_todos w v) as [c|] eqn:Hc; [|done].
    rewrite (Hempty v c Hc). simpl. apply lookup_empty.
Qed.

Lemma form_save_steps
    (expandObject : gmap string value → payload) (userId : string)
    (formData : gmap string value) (cl : Client) :
  ∃ cl',
    ToDoListConfig._updateObject expandObject userId formData cl
      = (Normal tt, cl') ∧
    host cl' = (updateUserToDos userId (expandObject formData) (host cl)).2.
Proof.
  unfold ToDoListConfig._updateObject, ToDoList.log. simpl.
  destruct (truthy (ToDoList.debug_value cl)); simpl;
    rewrite updateUserToDos_cases;
    destruct (find_user (game_users (host cl)) userId); simpl;
    by eexists.
Qed.

(** X14: saving the form. [_updateObject] hands the expanded form data to
    [updateUserToDos] for the form's user and then re-renders the form
    exactly once, without arguments, whether or not anything was saved: for
    an unknown user the store is left as it was and the form is re-rendered
    all the same. At most one flag write is issued. The console gets the
    "saving" line only when developer mode reports a truthy debug value,
    and nothing else of the client changes. *)
Theorem form_save_writes_once_and_rerenders
    (expandObject : gmap string value → payload) (userId : string)
    (formData : gmap string value) (cl : Client) :
  ∃ cl',
    ToDoListConfig._updateObject expandObject userId formData cl
      = (Normal tt, cl') ∧
    host cl' = (updateUserToDos userId (expandObject formData) (host cl)).2 ∧
    one_write_at_most (host cl) (host cl') ∧
    (find_user (game_users (host cl)) userId = None → host cl' = host cl) ∧
    rendered cl' = rendered cl ++ [(false, None)] ∧
    console cl'
      = console cl
        ++ (if truthy (ToDoList.debug_value cl)
            then [[LText "todo-list"; LText "|"; LText "saving";
                   LSaving formData (expandObject formData)]]
            else []) ∧
    game_modules cl' = game_modules cl.
Proof.
  unfold ToDoListConfig._updateObject, ToDoList.log. simpl.
  destruct (truthy (ToDoList.debug_value cl)); simpl.
  - rewrite updateUserToDos_cases.
    destruct (find_user (game_users (host cl)) userId) as [usr|] eqn:Hu.
    + eexists. split; [done|]. simpl. split_and!; try done.
      apply setFlag_one_write; [by rewrite Hu | done..].
    + eexists. split; [done|]. simpl. split_and!; try done.
      by apply unchanged_one_write.
  - rewrite updateUserToDos_cases.
    destruct (find_user (game_users (host cl)) userId) as [usr|] eqn:Hu.
    + eexists. split; [done|]. simpl. split_and!; try done.
      * apply setFlag_one_write; [by rewrite Hu | done..].
      * by rewrite app_nil_r.
    + eexists. split; [destruct cl; done|]. simpl. split_and!; try done.
      * by apply unchanged_one_write.
      * by rewrite app_nil_r.
Qed.

(** X15: what the form saves is what it shows next. For a known user and
    expanded form data whose keys are distinct and carry no deletion
    sentinel, [getData] after [_updateObject] returns a collection in which
    every submitted key holds the submitted value and every other key holds
    what was stored before. *)
Theorem form_save_then_getData
    (expandObject : gmap string value → payload) (userId : string)
    (formData : gmap string value) (cl : Client) :
  is_Some (find_user (game_users (host cl)) userId) →
  (∀ e, e ∈ expandObject formData → deletion_key e.1 = None) →
  NoDup (expandObject formData).*1 →
  ∃ cl' todos,
    ToDoListConfig._updateObject expandObject userId formData cl
      = (Normal tt, cl') ∧
    ToDoListConfig.getData userId cl' = (Normal (Some todos), cl') ∧
    (∀ k x, (k, x) ∈ expandObject formData → todos !! k = Some x) ∧
    (∀ k, k ∉ (expandObject formData).*1 →
          todos !! k = stored_todos (host cl) userId ≫= (.!! k)).
Proof.
  intros [usr Hu] Hkeys Hnd.
  destruct (form_save_steps expandObject userId formData cl)
    as (cl' & Hrun & Hhost).
  rewrite updateUserToDos_cases, Hu in Hhost.
  exists cl', (merge_on_write (stored_todos (host cl) userId)
                 (expandObject formData)).
  split; [done|]. split_and!.
  - unfold ToDoListConfig.getData. rewrite getToDosForUser_run, Hhost.
    rewrite (stored_setFlag_eq _ _ _ _ Hu). rewrite <- Hhost.
    by destruct cl'.
  - intros k x Hin. by apply merge_lookup_in.
  - intros k Hk. unfold merge_on_write. rewrite merge_lookup_notin by done.
    destruct (stored_todos (host cl) userId); simpl; [done|].
    apply lookup_empty.
Qed.

(** X16: a click on the button asks the form to render, forced, for the
    user of the clicked row and then logs "Button Clicked!" whether or not
    developer mode is there, the log being forced; the store and the
    modules are not touched. An unforced [log], by contrast, changes nothing
    when the developer-mode module is missing or has no [api]. *)
Theorem button_click_renders_and_logs
    (userId : option string) (args : list logged) (cl : Client) :
  (let cl' := on_button_click userId cl in
   rendered cl' = rendered cl ++ [(true, userId)] ∧
   console cl'
     = console cl
       ++ [[LText "todo-list"; LText "|"; LText "Button Clicked!"]] ∧
   host cl' = host cl ∧
   game_modules cl' = game_modules cl) ∧
  (game_modules cl !! "_dev-mode" ≫= api = None →
   ToDoList.log false args cl = cl).
Proof.
  split; [done|]. intros Hnone. unfold ToDoList.log, ToDoList.debug_value.
  destruct (game_modules cl !! "_dev-mode") as [m|]; simpl in *; [|done].
  by rewrite Hnone.
Qed.

(** X17: on a collision the later user's record decides. When several
    collections hold the id, the aggregation shows the record of the last
    one in enumeration order, and [updateToDo] and [deleteToDo] issue their
    write for the user that record names; the flags of all other users,
    earlier holders of the id included, are left as they were. *)
Theorem collision_routes_by_later_record
    (w : World) (cs1 cs2 : list (option ToDos)) (c : ToDos)
    (toDoId : string) (r : ToDo) (u : string) (usr : User)
    (updateData : jsval) :
  visited w = cs1 ++ Some c :: cs2 →
  c !! toDoId = Some (JObj r) →
  (∀ c', Some c' ∈ cs2 → c' !! toDoId = None) →
  r !! "userId" = Some (VString u) →
  find_user (game_users w) u = Some usr →
  ∃ agg,
    allToDos w = (Normal agg, w) ∧
    agg !! toDoId = Some (JObj r) ∧
    updateToDo toDoId updateData w = setFlag u [(toDoId, updateData)] w ∧
    deleteToDo toDoId w = setFlag u [("-=" +:+ toDoId, JNull)] w ∧
    (∀ v, v ≠ u →
          stored_todos (updateToDo toDoId updateData w).2 v
            = stored_todos w v ∧
          stored_todos (deleteToDo toDoId w).2 v = stored_todos w v).
Proof.
  intros Hsplit Hc Hlater Hfield Hu.
  destruct (allToDos_total w) as [agg Hagg].
  assert (agg !! toDoId = Some (JObj r)) as Hr.
  { rewrite (allToDos_lookup _ _ _ Hagg), Hsplit, last_entry_app. simpl.
    apply last_entry_None in Hlater. rewrite Hlater. simpl. by rewrite Hc. }
  exists agg.
  rewrite (updateToDo_present _ _ _ _ _ Hagg Hr).
  rewrite (deleteToDo_present _ _ _ _ Hagg Hr).
  rewrite (owner_of_known _ _ _ _ Hfield Hu).
  split_and!; [|done..|].
  - rewrite allToDos_run in *. simpl in Hagg. by injection Hagg as ->.
  - intros v Hv. by rewrite !stored_setFlag_ne.
Qed.

(** X18: [createToDo] does not check that the token is unused. For a known
    user and a token without sentinel, the collection afterwards has the
    keys it had plus the token: it grows by one todo when the token is new,
    and keeps its size, the record under that key being replaced by the new
    one, when the key was taken. *)
Theorem createToDo_adds_or_overwrites
    (w : World) (userId : string) (usr : User) (toDoData : ToDo) :
  find_user (game_users w) userId = Some usr →
  deletion_key (entropy w (draws w)) = None →
  let token := entropy w (draws w) in
  let before := default ∅ (stored_todos w userId) in
  ∃ w' after,
    createToDo userId toDoData w = (Normal RetPromise, w') ∧
    stored_todos w' userId = Some after ∧
    after !! token = Some (JObj (newToDo toDoData token userId)) ∧
    dom after = {[token]} ∪ dom before ∧
    (before !! token = None → size after = S (size before)) ∧
    (is_Some (before !! token) → size after = size before).
Proof.
  intros Hu Hkey token before.
  set (rec := JObj (newToDo toDoData token userId)).
  exists (setFlag userId [(token, rec)] (drawn w)).2, (<[token := rec]> before).
  rewrite (createToDo_known _ _ _ _ Hu). fold token rec.
  split_and!.
  - done.
  - by rewrite (stored_after_set (drawn w) _ usr).
  - apply lookup_insert_eq.
  - apply dom_insert_L.
  - intros Hnew. by apply map_size_insert_None.
  - intros Htaken. by apply map_size_insert_Some.
Qed.

(** ** The further properties on sample worlds *)

Lemma update_delete_as_updateUserToDos_witness :
  updateToDo "c" (JObj buy_milk) w_two
    = updateUserToDos "u2" [("c", JObj buy_milk)] w_two ∧
  deleteToDo "c" w_two = updateUserToDos "u2" [("-=c", JNull)] w_two.
Proof.
  apply (update_delete_as_updateUserToDos w_two agg_two "c" todo_c "u2"
           u2_two (JObj buy_milk)); by_evaluation.
Defined.

Lemma createToDo_extends_aggregation_witness :
  ∃ w',
    createToDo "u2" forged w_two = (Normal RetPromise, w') ∧
    allToDos w'
      = (Normal (<[ "tok0" := JObj (newToDo forged "tok0" "u2") ]> agg_two),
         w') ∧
    stored_todos w' "u1" = stored_todos w_two "u1" ∧
    stored_todos w' "u2" ≫= (.!! "c") = Some (JObj todo_c).
Proof.
  destruct (createToDo_extends_aggregation w_two agg_two "u2" u2_two forged)
    as (w' & Hrun & Hagg & Hothers & Hkeys); [by_evaluation..|].
  exists w'. split; [exact Hrun|]. split; [exact Hagg|].
  split; [apply Hothers; discriminate|].
  rewrite Hkeys; [reflexivity | discriminate].
Defined.

Lemma create_then_delete_round_trip_witness :
  ∃ w1 w2,
    createToDo "u3" buy_milk w_two = (Normal RetPromise, w1) ∧
    deleteToDo "tok0" w1 = (Normal RetPromise, w2) ∧
    allToDos w2 = (Normal agg_two, w2) ∧
    stored_todos w2 "u1" ≫= (.!! "a") = Some (JObj todo_a) ∧
    stored_todos w2 "u3" ≫= (.!! "tok0") = None ∧
    flag_writes w2
      = [("u3", [("tok0", JObj (newToDo buy_milk "tok0" "u3"))]);
         ("u3", [("-=tok0", JNull)])].
Proof.
  destruct (create_then_delete_round_trip w_two agg_two "u3"
              (mkUser "u3" None) buy_milk)
    as (w1 & w2 & Hc & Hd & Hagg & Hback & Hwrites); [by_evaluation..|].
  exists w1, w2. split; [exact Hc|]. split; [exact Hd|].
  split; [exact Hagg|]. split; [by rewrite Hback|].
  split; [by rewrite Hback | exact Hwrites].
Defined.

Lemma deleteToDo_twice_throws_witness :
  ∃ w',
    deleteToDo "a" w_two = (Normal RetPromise, w') ∧
    deleteToDo "a" w' = (Thrown TypeError, w') ∧
    updateToDo "a" (JObj buy_milk) w' = (Thrown TypeError, w').
Proof.
  apply (deleteToDo_twice_throws w_two agg_two "a" todo_a "u1" u1_two
           (JObj buy_milk)); by_evaluation.
Defined.

Lemma updateToDo_can_strand_record_witness :
  ∃ w',
    updateToDo "a" (JObj {[ "label" := VString "x" ]}) w_two
      = (Normal RetPromise, w') ∧
    stored_todos w' "u1" ≫= (.!! "a")
      = Some (JObj {[ "label" := VString "x" ]}) ∧
    (∀ updateData,
       updateToDo "a" updateData w' = (Normal RetUndefined, w')) ∧
    deleteToDo "a" w' = (Normal RetUndefined, w').
Proof.
  apply (updateToDo_can_strand_record w_two agg_two "a" todo_a "u1" u1_two
           {[ "label" := VString "x" ]}); by_evaluation.
Defined.

Lemma updateToDo_last_wins_witness :
  ∃ w1 w2 w2',
    updateToDo "a" (JObj {[ "userId" := VString "u1" ]}) w_two
      = (Normal RetPromise, w1) ∧
    updateToDo "a" (JObj todo_a) w1 = (Normal RetPromise, w2) ∧
    updateToDo "a" (JObj todo_a) w_two = (Normal RetPromise, w2') ∧
    game_users w2 = game_users w2' ∧
    stored_todos w2 "u1" ≫= (.!! "a") = Some (JObj todo_a).
Proof.
  apply (updateToDo_last_wins w_two agg_two "a" todo_a "u1" u1_two
           {[ "userId" := VString "u1" ]} (JObj todo_a)); by_evaluation.
Defined.

Lemma updateToDo_null_then_throws_witness :
  ∃ w',
    updateToDo "a" JNull w_two = (Normal RetPromise, w') ∧
    allToDos w' = (Normal (<[ "a" := JNull ]> agg_two), w') ∧
    (∀ updateData, updateToDo "a" updateData w' = (Thrown TypeError, w')) ∧
    deleteToDo "a" w' = (Thrown TypeError, w').
Proof.
  apply (updateToDo_null_then_throws w_two agg_two "a" todo_a "u1" u1_two);
    by_evaluation.
Defined.

Lemma updateToDo_keeps_keys_iff_id_matches_witness :
  (∃ w', updateToDo "a" (JObj todo_b) w_two = (Normal RetPromise, w') ∧
         ¬ keyed_by_id w') ∧
  (∃ w', updateToDo "a" (JObj (<[ "isDone" := VBool false ]> todo_a)) w_two
           = (Normal RetPromise, w') ∧
         keyed_by_id w').
Proof.
  split.
  - destruct (updateToDo_keeps_keys_iff_id_matches w_two agg_two "a" todo_a
                "u1" u1_two (JObj todo_b))
      as (w' & Hrun & Hiff); [by_evaluation..|].
    exists w'. split; [exact Hrun|]. intros Hkeyed.
    destruct Hiff as [Hfwd _].
    pose proof (Hfwd Hkeyed todo_b eq_refl) as Hid.
    vm_compute in Hid. discriminate.
  - destruct (updateToDo_keeps_keys_iff_id_matches w_two agg_two "a" todo_a
                "u1" u1_two (JObj (<[ "isDone" := VBool false ]> todo_a)))
      as (w' & Hrun & Hiff); [by_evaluation..|].
    exists w'. split; [exact Hrun|]. destruct Hiff as [_ Hbwd].
    apply Hbwd. intros o [= <-]. by_evaluation.
Defined.

Lemma create_delete_keep_ownership_witness :
  owned_by_holder (createToDo "u2" forged w_two).2 ∧
  owned_by_holder (deleteToDo "a" w_two).2.
Proof.
  apply (create_delete_keep_ownership w_two "u2" "a" forged). by_evaluation.
Defined.

Lemma owned_record_is_written_at_its_holder_witness :
  ∃ u c,
    stored_todos w_two u = Some c ∧
    c !! "c" = Some (JObj todo_c) ∧
    updateToDo "c" (JObj buy_milk) w_two
      = setFlag u [("c", JObj buy_milk)] w_two ∧
    deleteToDo "c" w_two = setFlag u [("-=c", JNull)] w_two.
Proof.
  apply (owned_record_is_written_at_its_holder w_two agg_two "c" todo_c
           (JObj buy_milk)); by_evaluation.
Defined.

Lemma form_save_then_getData_witness :
  ∃ cl' todos,
    ToDoListConfig._updateObject sample_expand "u1" sample_form
        (dev_client_of w_two)
      = (Normal tt, cl') ∧
    ToDoListConfig.getData "u1" cl' = (Normal (Some todos), cl') ∧
    todos !! "a"
      = Some (JObj {[ "label" := VString "buy oat milk";
                      "isDone" := VBool false ]}) ∧
    todos !! "b" = Some (JObj todo_b).
Proof.
  destruct (form_save_then_getData sample_expand "u1" sample_form
              (dev_client_of w_two))
    as (cl' & todos & Hrun & Hget & Hin & Hout).
  - by_evaluation.
  - intros e [->|Hin]%elem_of_cons; [reflexivity | by apply elem_of_nil in Hin].
  - by_evaluation.
  - exists cl', todos. split; [exact Hrun|]. split; [exact Hget|]. split.
    + apply Hin. vm_compute. left.
    + rewrite Hout; [by_evaluation|]. vm_compute.
      intros [Heq|Hin']%elem_of_cons; [discriminate|].
      by apply elem_of_nil in Hin'.
Defined.

Lemma collision_routes_by_later_record_witness :
  ∃ agg,
    allToDos w_collide = (Normal agg, w_collide) ∧
    agg !! "k"
      = Some (JObj {[ "id" := VString "k"; "userId" := VString "u2" ]}) ∧
    updateToDo "k" (JObj buy_milk) w_collide
      = setFlag "u2" [("k", JObj buy_milk)] w_collide ∧
    deleteToDo "k" w_collide = setFlag "u2" [("-=k", JNull)] w_collide ∧
    stored_todos (deleteToDo "k" w_collide).2 "u1"
      = stored_todos w_collide "u1".
Proof.
  destruct (collision_routes_by_later_record w_collide
              [Some {[ "k" := JObj {[ "id" := VString "k";
                                      "userId" := VString "u1" ]} ]}]
              []
              {[ "k" := JObj {[ "id" := VString "k";
                                "userId" := VString "u2" ]} ]}
              "k" {[ "id" := VString "k"; "userId" := VString "u2" ]}
              "u2"
              (mkUser "u2"
                 (Some {[ "k" := JObj {[ "id" := VString "k";
                                         "userId" := VString "u2" ]} ]}))
              (JObj buy_milk))
    as (agg & Hall & Hk & Hup & Hdel & Hothers).
  - by_evaluation.
  - by_evaluation.
  - intros c' Hin. by apply elem_of_nil in Hin.
  - by_evaluation.
  - by_evaluation.
  - exists agg. split; [exact Hall|]. split; [exact Hk|].
    split; [exact Hup|]. split; [exact Hdel|].
    apply (Hothers "u1"). discriminate.
Defined.

Lemma createToDo_adds_or_overwrites_witness :
  ∃ w' after,
    createToDo "u2" forged w_two = (Normal RetPromise, w') ∧
    stored_todos w' "u2" = Some after ∧
    after !! "tok0" = Some (JObj (newToDo forged "tok0" "u2")) ∧
    size after = 2.
Proof.
  destruct (createToDo_adds_or_overwrites w_two "u2" u2_two forged)
    as (w' & after & Hrun & Hst & Hat & _ & Hnew & _); [by_evaluation..|].
  exists w', after. split; [exact Hrun|]. split; [exact Hst|].
  split; [exact Hat|]. rewrite Hnew; by_evaluation.
Defined.
